(** * MEV-BOT: plugin lifecycle producer and startup configuration

    A shallow embedding of
    - [src/producers/interface_producer.py] (class [InterfaceProducer]) and
    - [src/cli.py] (startup configuration loading and argument overrides),
    with the properties of the specification stated over it.

    The first half of the file holds the model, the second half the
    properties. *)

From Stdlib Require Import Floats.
From stdpp Require Import gmap strings list.

Set Default Proof Using "Type".

(** ** Small list utilities *)

(** Number of elements of [l] satisfying the boolean test [p]. *)
Fixpoint count_where {A} (p : A → bool) (l : list A) : nat :=
  match l with
  | [] => 0
  | x :: l' => (if p x then 1 else 0) + count_where p l'
  end.

(** * Model of the lifecycle producer ([InterfaceProducer]) *)

Module Producer.

(** A Python reference handed to the registration callbacks: [None] is
    Python's [None], [Some k] the object of identity [k]. *)
Abbreviation instance_ref := (option nat).

(** Identifier of an exchange manager. *)
Abbreviation exchange_id := string.

Section model.

(** The configuration objects held by the bot and the service classes are
    opaque to the producer. *)
Context {Config SetupConfig EditedConfig Service : Type}.

(** An interface or notifier class, as returned by the factories. *)
Record plugin_class : Type := PluginClass {
  get_name : string;
  REQUIRED_SERVICES : list Service;
}.

(** The fields of [self.MEV] read by the producer. *)
Record MEV_bot : Type := MEVBot {
  config : Config;
  tentacles_setup_config : SetupConfig;
  bot_id : string;
}.

(** The functions of [MEV_services], [MEV_tentacles_manager] and
    [MEV_backtesting] the producer calls; they are not part of the
    repository and are taken as given. *)
Record collaborators : Type := Collaborators {
  (** [service_api.is_enabled(cls)] *)
  is_enabled : plugin_class → bool;
  (** [service_api.is_enabled_in_config(cls, config)] *)
  is_enabled_in_config : plugin_class → Config → bool;
  (** [service_api.is_enabled_in_backtesting(cls)] *)
  is_enabled_in_backtesting : plugin_class → bool;
  (** [tentacles_manager_api.is_tentacle_activated_in_tentacles_setup_config] *)
  is_tentacle_activated_in_tentacles_setup_config : SetupConfig → string → bool;
  (** [service.get_is_enabled(config)] *)
  get_is_enabled : Service → Config → bool;
  (** [backtesting_api.is_backtesting_enabled(config)] *)
  is_backtesting_enabled : Config → bool;
  (** [service_interfaces.get_bot_api() is None] *)
  bot_api_is_none : bool;
  (** [interface_factory.get_available_interfaces()] *)
  get_available_interfaces : list plugin_class;
  (** [notifier_factory.get_available_notifiers()] *)
  get_available_notifiers : list plugin_class;
  (** [self.MEV.get_edited_config(constants.CONFIG_KEY, dict_only=False)] *)
  get_edited_config : EditedConfig;
  (** the list returned by [service_managers.start_interfaces] *)
  started_interfaces_of : list instance_ref → list instance_ref;
}.

Variable MEV : MEV_bot.
Variable api : collaborators.

(** *** Channel messages and observable effects *)

(** The payload of [self.send]: subject, action and the data dictionary.
    The factory and executor references carried by creation requests are
    opaque to the producer and left out. *)
Inductive message : Type :=
| CREATION_INTERFACE (edited_config : EditedConfig)
    (backtesting_enabled : bool) (cls : plugin_class)
| CREATION_NOTIFICATION (edited_config : EditedConfig)
    (backtesting_enabled : bool) (cls : plugin_class)
| UPDATE_EXCHANGE_REGISTRATION (instance : instance_ref)
    (exchange : exchange_id).

(** What the producer does to the outside world, in order. *)
Inductive effect : Type :=
| Send (m : message)
| Process_pending_notifications
| Initialize_global_project_data
| Start_interfaces (to_start : list instance_ref)
| Stop_interfaces (to_stop : list instance_ref)
| Log_error (missing : list instance_ref).

(** *** State *)

(** The producer's attributes, the exchange ids recorded by
    [self.MEV.exchange_producer], and the effects performed so far. *)
Record state : Type := State {
  interfaces : list instance_ref;
  notifiers : list instance_ref;
  to_create_notifiers_count : nat;
  exchange_manager_ids : list exchange_id;
  performed : list effect;
}.

(** [__init__], with the exchange producer holding [ids]. *)
Definition init (ids : list exchange_id) : state :=
  State [] [] 0 ids [].

Definition perform (e : effect) (s : state) : state :=
  State (interfaces s) (notifiers s) (to_create_notifiers_count s)
        (exchange_manager_ids s) (performed s ++ [e]).

Definition send (m : message) : state → state := perform (Send m).

(** [for x in l: body(x)] *)
Fixpoint for_each {A} (l : list A) (body : A → state → state)
    (s : state) : state :=
  match l with
  | [] => s
  | x :: l' => for_each l' body (body x s)
  end.

(** *** Eligibility *)

Definition _is_interface_relevant (interface_class : plugin_class)
    (backtesting_enabled : bool) : bool :=
  is_enabled api interface_class &&
  is_tentacle_activated_in_tentacles_setup_config api
    (tentacles_setup_config MEV) (get_name interface_class) &&
  forallb (λ service, get_is_enabled api service (config MEV))
    (REQUIRED_SERVICES interface_class) &&
  (negb backtesting_enabled ||
   (backtesting_enabled && is_enabled_in_backtesting api interface_class)).

Definition _is_notifier_relevant (notifier_class : plugin_class)
    (backtesting_enabled : bool) : bool :=
  is_enabled_in_config api notifier_class (config MEV) &&
  is_tentacle_activated_in_tentacles_setup_config api
    (tentacles_setup_config MEV) (get_name notifier_class) &&
  forallb (λ service, get_is_enabled api service (config MEV))
    (REQUIRED_SERVICES notifier_class) &&
  negb backtesting_enabled.

(** *** Exchange registration *)

Definition _register_exchange (to_notify_instance : instance_ref)
    (exchange : exchange_id) : state → state :=
  send (UPDATE_EXCHANGE_REGISTRATION to_notify_instance exchange).

Definition register_exchange (exchange : exchange_id) (s : state) : state :=
  for_each (interfaces s ++ notifiers s)
    (λ to_notify_instance, _register_exchange to_notify_instance exchange) s.

Definition _register_existing_exchanges (instance : instance_ref)
    (s : state) : state :=
  for_each (exchange_manager_ids s)
    (λ exchange, _register_exchange instance exchange) s.

(** *** Registration callbacks *)

(** [self.interfaces.append(instance)] *)
Definition append_interface (instance : instance_ref) (s : state) : state :=
  State (interfaces s ++ [instance]) (notifiers s)
        (to_create_notifiers_count s) (exchange_manager_ids s) (performed s).

(** [self.notifiers.append(instance)] *)
Definition append_notifier (instance : instance_ref) (s : state) : state :=
  State (interfaces s) (notifiers s ++ [instance])
        (to_create_notifiers_count s) (exchange_manager_ids s) (performed s).

Definition register_interface (instance : instance_ref) (s : state) : state :=
  match instance with
  | Some _ => _register_existing_exchanges instance (append_interface instance s)
  | None => s
  end.

Definition register_notifier (instance : instance_ref) (s : state) : state :=
  let s1 := append_notifier instance s in
  let s2 := _register_existing_exchanges instance s1 in
  if length (notifiers s2) =? to_create_notifiers_count s2
  then perform Process_pending_notifications s2
  else s2.

(** *** Creation requests *)

Definition _create_interface_if_relevant (interface_class : plugin_class)
    (backtesting_enabled : bool) (edited_config : EditedConfig)
    (s : state) : state :=
  if _is_interface_relevant interface_class backtesting_enabled
  then send (CREATION_INTERFACE edited_config backtesting_enabled
               interface_class) s
  else s.

(** [self.to_create_notifiers_count += 1] *)
Definition incr_to_create_notifiers_count (s : state) : state :=
  State (interfaces s) (notifiers s) (to_create_notifiers_count s + 1)
        (exchange_manager_ids s) (performed s).

Definition _create_notifier_class_if_relevant (notifier_class : plugin_class)
    (backtesting_enabled : bool) (edited_config : EditedConfig)
    (s : state) : state :=
  if _is_notifier_relevant notifier_class backtesting_enabled
  then incr_to_create_notifiers_count
         (send (CREATION_NOTIFICATION edited_config backtesting_enabled
                  notifier_class) s)
  else s.

Definition _create_interfaces (in_backtesting : bool) (s : state) : state :=
  let s1 := if bot_api_is_none api
            then perform Initialize_global_project_data s else s in
  for_each (get_available_interfaces api)
    (λ interface_class,
       _create_interface_if_relevant interface_class in_backtesting
         (get_edited_config api)) s1.

Definition _create_notifiers (in_backtesting : bool) (s : state) : state :=
  for_each (get_available_notifiers api)
    (λ notifier_class,
       _create_notifier_class_if_relevant notifier_class in_backtesting
         (get_edited_config api)) s.

Definition start_interfaces (s : state) : state :=
  let to_start_interfaces := interfaces s in
  let s1 := perform (Start_interfaces to_start_interfaces) s in
  let started_interfaces := started_interfaces_of api to_start_interfaces in
  if negb (length started_interfaces =? length to_start_interfaces)
  then perform
         (Log_error
            (List.filter
               (λ interface, negb (bool_decide (interface ∈ started_interfaces)))
               to_start_interfaces)) s1
  else s1.

Definition start (s : state) : state :=
  let in_backtesting := is_backtesting_enabled api (config MEV) in
  start_interfaces
    (_create_notifiers in_backtesting
       (_create_interfaces in_backtesting s)).

(** [stop]: the live interfaces are handed to
    [service_managers.stop_interfaces]; no attribute is assigned. *)
Definition stop (s : state) : state :=
  perform (Stop_interfaces (interfaces s)) s.

(** *** Sequences of calls *)

(** [self.MEV.exchange_producer.exchange_manager_ids.append(exchange)],
    done by the exchange producer, outside this class. *)
Definition record_exchange (exchange : exchange_id) (s : state) : state :=
  State (interfaces s) (notifiers s) (to_create_notifiers_count s)
        (exchange_manager_ids s ++ [exchange]) (performed s).

(** What can happen to a started producer. *)
Inductive call : Type :=
| Call_register_interface (instance : instance_ref)
| Call_register_notifier (instance : instance_ref)
| Call_register_exchange (exchange : exchange_id)
| Call_stop
| Exchange_recorded (exchange : exchange_id).

Definition step (c : call) : state → state :=
  match c with
  | Call_register_interface instance => register_interface instance
  | Call_register_notifier instance => register_notifier instance
  | Call_register_exchange exchange => register_exchange exchange
  | Call_stop => stop
  | Exchange_recorded exchange => record_exchange exchange
  end.

Definition run (calls : list call) (s : state) : state :=
  for_each calls step s.

(** Number of [register_notifier] calls in a sequence. *)
Definition notifier_registrations (calls : list call) : nat :=
  count_where (λ c, match c with Call_register_notifier _ => true
                            | _ => false end) calls.

(** *** Observations on the effects *)

Definition is_flush (e : effect) : bool :=
  match e with Process_pending_notifications => true | _ => false end.

(** Number of calls of [process_pending_notifications]. *)
Definition flushes (log : list effect) : nat := count_where is_flush log.

Definition is_delivery (instance : instance_ref) (exchange : exchange_id)
    (e : effect) : bool :=
  match e with
  | Send (UPDATE_EXCHANGE_REGISTRATION i h) =>
      bool_decide (i = instance) && bool_decide (h = exchange)
  | _ => false
  end.

(** Number of exchange-registration messages for [instance] and
    [exchange]. *)
Definition deliveries (instance : instance_ref) (exchange : exchange_id)
    (log : list effect) : nat :=
  count_where (is_delivery instance exchange) log.

(** The instances handed to [stop_interfaces] so far. *)
Definition signalled_to_stop (log : list effect) : list instance_ref :=
  concat (map (λ e, match e with Stop_interfaces l => l | _ => [] end) log).

(** The messages replaying the recorded exchanges to one instance. *)
Definition replay_of (instance : instance_ref) (ids : list exchange_id)
    : list effect :=
  map (λ exchange, Send (UPDATE_EXCHANGE_REGISTRATION instance exchange)) ids.

(** The messages announcing one exchange to the given instances. *)
Definition broadcast_of (exchange : exchange_id)
    (instances : list instance_ref) : list effect :=
  map (λ instance, Send (UPDATE_EXCHANGE_REGISTRATION instance exchange))
    instances.

(** What [start] leaves untouched, and what it counts. *)
Record start_frame (n : nat) (s s' : state) : Prop := StartFrame {
  frame_interfaces : interfaces s' = interfaces s;
  frame_notifiers : notifiers s' = notifiers s;
  frame_ids : exchange_manager_ids s' = exchange_manager_ids s;
  frame_count : to_create_notifiers_count s' = to_create_notifiers_count s + n;
  frame_flushes : flushes (performed s') = flushes (performed s);
}.

(** The instances that receive broadcasts. *)
Definition live (s : state) : list instance_ref :=
  interfaces s ++ notifiers s.

(** The creation requests [_create_interfaces] publishes: one for each
    relevant class, in the order of the factory. *)
Definition interface_requests (in_backtesting : bool) : list effect :=
  map (λ cls, Send (CREATION_INTERFACE (get_edited_config api)
                      in_backtesting cls))
      (List.filter (λ cls, _is_interface_relevant cls in_backtesting)
         (get_available_interfaces api)).

(** The creation requests [_create_notifiers] publishes. *)
Definition notifier_requests (in_backtesting : bool) : list effect :=
  map (λ cls, Send (CREATION_NOTIFICATION (get_edited_config api)
                      in_backtesting cls))
      (List.filter (λ cls, _is_notifier_relevant cls in_backtesting)
         (get_available_notifiers api)).

(** What [start_interfaces] does with the interfaces [to_start]. *)
Definition start_interfaces_effects (to_start : list instance_ref)
    : list effect :=
  Start_interfaces to_start ::
  if negb (length (started_interfaces_of api to_start) =? length to_start)
  then [Log_error
          (List.filter
             (λ interface,
                negb (bool_decide
                        (interface ∈ started_interfaces_of api to_start)))
             to_start)]
  else [].

(** Number of times [x] occurs in [l]. *)
Definition occurrences `{EqDecision A} (x : A) (l : list A) : nat :=
  count_where (λ y, bool_decide (y = x)) l.

(** The class a creation request is about, if the effect is one. *)
Definition requested_class (e : effect) : option plugin_class :=
  match e with
  | Send (CREATION_INTERFACE _ _ cls) => Some cls
  | Send (CREATION_NOTIFICATION _ _ cls) => Some cls
  | _ => None
  end.

(** Every live instance got every recorded exchange once, and nothing
    else was delivered. *)
Definition exactly_once (s : state) : Prop :=
  ∀ instance exchange,
    deliveries instance exchange (performed s) =
    if bool_decide (instance ∈ live s ∧ exchange ∈ exchange_manager_ids s)
    then 1 else 0.

(** *** The registration protocol *)

(** Modelled from the spec: the exchange producer and the channel
    consumers that drive the producer are not under src/. Following the
    specification, an exchange handle that becomes available is recorded
    among the previously-seen handles and broadcast in one step, and each
    instantiated plugin calls back its registration entry point. *)
Inductive event : Type :=
| Interface_registered (instance : instance_ref)
| Notifier_registered (instance : instance_ref)
| Exchange_available (exchange : exchange_id).

Definition calls_of_event (ev : event) : list call :=
  match ev with
  | Interface_registered instance => [Call_register_interface instance]
  | Notifier_registered instance => [Call_register_notifier instance]
  | Exchange_available exchange =>
      [Exchange_recorded exchange; Call_register_exchange exchange]
  end.

Definition calls_of (events : list event) : list call :=
  concat (map calls_of_event events).

(** Instances added to the live lists by a sequence of events. *)
Fixpoint registered (events : list event) : list instance_ref :=
  match events with
  | [] => []
  | Interface_registered (Some k) :: events' => Some k :: registered events'
  | Interface_registered None :: events' => registered events'
  | Notifier_registered instance :: events' => instance :: registered events'
  | Exchange_available _ :: events' => registered events'
  end.

(** Handles made available by a sequence of events. *)
Fixpoint announced (events : list event) : list exchange_id :=
  match events with
  | [] => []
  | Exchange_available exchange :: events' => exchange :: announced events'
  | _ :: events' => announced events'
  end.

(** Two interfaces are live when ["binance-1"] becomes available, a
    third one registers afterwards. *)
Definition scenario_events : list event :=
  [Interface_registered (Some 1); Interface_registered (Some 2);
   Exchange_available "binance-1"; Interface_registered (Some 3)].

End model.

(** A bot under backtesting with two interface classes, of which only
    ["web"] runs in backtesting, and one notifier class. *)
Definition backtesting_bot : @MEV_bot unit unit := MEVBot () () "bot".

Definition backtesting_api : @collaborators unit unit unit unit :=
  Collaborators (λ _, true) (λ _ _, true)
    (λ cls, String.eqb (get_name cls) "web")
    (λ _ _, true) (λ _ _, true) (λ _, true) true
    [PluginClass "web" []; PluginClass "telegram" []]
    [PluginClass "push" []]
    () (λ to_start, to_start).

End Producer.

(** * Model of the command line start-up ([cli.py]) *)

Module Cli.

(** The exception classes that the start-up code raises or catches. All
    of them derive from Python's [Exception] but the last one, which stands
    for the classes that derive from [BaseException] only:
    [KeyboardInterrupt], [SystemExit], [GeneratorExit] and
    [asyncio.CancelledError]. *)
Inductive exn : Type :=
| NoProfileError
| ConfigError
| KeyError
| ImportError
| OtherException (name : string)  (* another subclass of [Exception] *)
| Interruption (name : string).   (* a subclass of [BaseException] only *)

(** [isinstance(e, Exception)]: what an [except Exception] clause
    catches. *)
Definition is_Exception (e : exn) : bool :=
  match e with
  | Interruption _ => false
  | _ => true
  end.

(** ** Start-up arguments applied to the configuration *)

(** Values stored in the configuration document. *)
Inductive value : Type :=
| VBool (b : bool)
| VFloat (f : float)
| VStrings (l : list string)
| VOther (repr : string).

(** [config.config]: a dictionary of sections, each one a dictionary. *)
Abbreviation config_dict := (gmap string (gmap string value)).

(** The attributes of [starting_args] read by [update_config_with_args].
    [backtesting_files] is used for its truth value only, so an absent
    list and an empty one are the same. *)
Record starting_args : Type := StartingArgs {
  backtesting : bool;
  backtesting_files : list string;
  simulate : bool;
  risk : option float;
}.

(** The dictionary keys of [MEV_commons.constants] and
    [MEV_backtesting.constants]; their values are not under src/. *)
Record config_keys : Type := ConfigKeys {
  CONFIG_BACKTESTING : string;
  CONFIG_BACKTESTING_DATA_FILES : string;
  CONFIG_ENABLED_OPTION : string;
  CONFIG_TRADER : string;
  CONFIG_SIMULATOR : string;
  CONFIG_TRADING : string;
  CONFIG_TRADER_RISK : string;
}.

(** A statement working on the configuration in place: the dictionary
    after it, and the exception it raised, if any. *)
Definition stmt : Type := config_dict → config_dict * option exn.

Definition skip : stmt := λ c, (c, None).

Definition raise (e : exn) : stmt := λ c, (c, Some e).

Definition then_ (s1 s2 : stmt) : stmt :=
  λ c, match s1 c with
       | (c', None) => s2 c'
       | (c', Some e) => (c', Some e)
       end.

Notation "s1 >> s2" := (then_ s1 s2) (at level 62, right associativity).

Definition when (b : bool) (s : stmt) : stmt := if b then s else skip.

(** [config.config[section][key] = v]; a missing section raises
    [KeyError]. *)
Definition setitem (section key : string) (v : value) : stmt :=
  λ c, match c !! section with
       | Some d => (<[section := <[key := v]> d]> c, None)
       | None => (c, Some KeyError)
       end.

(** [config.config[section][key]], when both exist. *)
Definition getitem (section key : string) (c : config_dict) : option value :=
  c !! section ≫= λ d, d !! key.

(** Python's [0 < r <= 1] on floats. *)
Definition risk_in_range (r : float) : bool :=
  PrimFloat.ltb 0%float r && PrimFloat.leb r 1%float.

(** The value last assigned to [section]/[key] by a list of assignments. *)
Fixpoint last_write (section key : string)
    (ws : list (string * string * value)) : option value :=
  match ws with
  | [] => None
  | (sec, k, v) :: ws' =>
      match last_write section key ws' with
      | Some v' => Some v'
      | None => if decide (sec = section ∧ k = key) then Some v else None
      end
  end.

(** [s] succeeds on every document that holds the sections assigned to
    by [ws], keeps the set of sections, and leaves in each entry the value
    last assigned to it by [ws], or else the value it had. *)
Definition performs (s : stmt) (ws : list (string * string * value)) : Prop :=
  ∀ c, (∀ w, w ∈ ws → is_Some (c !! w.1.1)) →
    ∃ c', s c = (c', None) ∧
      (∀ section, is_Some (c' !! section) ↔ is_Some (c !! section)) ∧
      (∀ section key,
         getitem section key c' =
         match last_write section key ws with
         | Some v => Some v
         | None => getitem section key c
         end).

(** [s] raises [KeyError] on every document that lacks a section assigned
    to by [ws]. *)
Definition raises_on_missing (s : stmt)
    (ws : list (string * string * value)) : Prop :=
  ∀ c, (∃ w, w ∈ ws ∧ c !! w.1.1 = None) → (s c).2 = Some KeyError.

(** Whether it raises or not, [s] keeps the set of sections and every
    entry that [ws] does not assign to. *)
Definition touches_only (s : stmt)
    (ws : list (string * string * value)) : Prop :=
  ∀ c,
    (∀ section, is_Some ((s c).1 !! section) ↔ is_Some (c !! section)) ∧
    (∀ section key,
       (∀ w, w ∈ ws → (w.1.1, w.1.2) ≠ (section, key)) →
       getitem section key (s c).1 = getitem section key c).

(** The keys as named in the configuration file, and a document with the
    four sections. *)
Definition default_keys : config_keys :=
  ConfigKeys "backtesting" "files" "enabled" "trader" "trader-simulator"
             "trading" "risk".

Definition sample_config : config_dict :=
  {[ "backtesting" := {[ "enabled" := VBool false ]};
     "trader" := {[ "enabled" := VBool true ]};
     "trader-simulator" := {[ "enabled" := VBool false ]};
     "trading" := {[ "risk" := VFloat 0.25%float ]} ]}.

Section update_config.

Variable K : config_keys.

(** [backtesting_importable] tells whether
    [import MEV_backtesting.constants] succeeds. *)
Definition update_config_with_args (backtesting_importable : bool)
    (args : starting_args) : stmt :=
  when (negb backtesting_importable) (raise ImportError) >>
  when (backtesting args)
    (when (bool_decide (backtesting_files args ≠ []))
       (setitem (CONFIG_BACKTESTING K) (CONFIG_BACKTESTING_DATA_FILES K)
          (VStrings (backtesting_files args))) >>
     setitem (CONFIG_BACKTESTING K) (CONFIG_ENABLED_OPTION K) (VBool true) >>
     setitem (CONFIG_TRADER K) (CONFIG_ENABLED_OPTION K) (VBool false) >>
     setitem (CONFIG_SIMULATOR K) (CONFIG_ENABLED_OPTION K) (VBool true)) >>
  when (simulate args)
    (setitem (CONFIG_TRADER K) (CONFIG_ENABLED_OPTION K) (VBool false) >>
     setitem (CONFIG_SIMULATOR K) (CONFIG_ENABLED_OPTION K) (VBool true)) >>
  match risk args with
  | Some r =>
      when (risk_in_range r)
        (setitem (CONFIG_TRADING K) (CONFIG_TRADER_RISK K) (VFloat r))
  | None => skip
  end.

(** The assignments [update_config_with_args] goes through, in order:
    section, key and value. *)
Definition writes_of (args : starting_args) : list (string * string * value) :=
  (if backtesting args
   then (if bool_decide (backtesting_files args ≠ [])
         then [(CONFIG_BACKTESTING K, CONFIG_BACKTESTING_DATA_FILES K,
                VStrings (backtesting_files args))]
         else []) ++
        [(CONFIG_BACKTESTING K, CONFIG_ENABLED_OPTION K, VBool true);
         (CONFIG_TRADER K, CONFIG_ENABLED_OPTION K, VBool false);
         (CONFIG_SIMULATOR K, CONFIG_ENABLED_OPTION K, VBool true)]
   else []) ++
  (if simulate args
   then [(CONFIG_TRADER K, CONFIG_ENABLED_OPTION K, VBool false);
         (CONFIG_SIMULATOR K, CONFIG_ENABLED_OPTION K, VBool true)]
   else []) ++
  match risk args with
  | Some r =>
      if risk_in_range r
      then [(CONFIG_TRADING K, CONFIG_TRADER_RISK K, VFloat r)]
      else []
  | None => []
  end.

(** The sections written by [update_config_with_args] are distinct
    dictionaries, and so are the two keys of the backtesting section. *)
Definition distinct_keys : Prop :=
  NoDup [CONFIG_BACKTESTING K; CONFIG_TRADER K; CONFIG_SIMULATOR K;
         CONFIG_TRADING K] ∧
  CONFIG_BACKTESTING_DATA_FILES K ≠ CONFIG_ENABLED_OPTION K.

(** A configuration document holding the four sections. *)
Definition has_sections (c : config_dict) : Prop :=
  is_Some (c !! CONFIG_BACKTESTING K) ∧ is_Some (c !! CONFIG_TRADER K) ∧
  is_Some (c !! CONFIG_SIMULATOR K) ∧ is_Some (c !! CONFIG_TRADING K).

End update_config.

(** ** Loading the start-up configuration *)

(** A [Configuration] object, by identity. *)
Abbreviation config_obj := nat.

(** The calls that leave [cli.py]. *)
Inductive request : Type :=
| Create_configuration
| Is_config_file_empty_or_missing (config : config_obj)
| Init_config
| Read (config : config_obj) (should_raise fill_missing_fields : bool)
| Set_default_profile (config : config_obj)
| Load_profiles_if_possible_and_necessary (config : config_obj)
| Ensure_profile (config : config_obj)
| Validate (config : config_obj)
| Migrate_from_previous_config (config : config_obj)
| Isdir_tentacles_path
| Log_info (text : string)
| Log_error (text : string).

(** How such a call ends: it returns (nothing, or a boolean) or raises. *)
Inductive answer : Type :=
| Returns
| Returns_bool (b : bool)
| Raises (e : exn).

(** What happened so far: each call with its outcome. *)
Abbreviation history := (list (request * answer)).

(** The world outside [cli.py] (files, profiles, tentacles): it decides
    the outcome of every call from what happened before. *)
Definition world : Type := history → request → answer.

(** Python truth value of what a call returned. *)
Definition truthy (a : answer) : bool :=
  match a with Returns_bool b => b | _ => false end.

(** A computation that may raise, threading the history. *)
Definition M (A : Type) : Type := history → (A + exn) * history.

Definition ret {A} (x : A) : M A := λ h, (inl x, h).

Definition throw {A} (e : exn) : M A := λ h, (inr e, h).

Definition bind {A B} (m : M A) (k : A → M B) : M B :=
  λ h, match m h with
       | (inl x, h') => k x h'
       | (inr e, h') => (inr e, h')
       end.

Notation "'let!' x := m 'in' k" := (bind m (λ x, k))
  (at level 10, x name, m at level 100, k at level 200).
Notation "m ;;; k" := (bind m (λ _, k))
  (at level 100, right associativity).

(** [try: body  except <classes> as e: handler(e)]; [handler] answers
    [None] for an exception that no clause catches. An exception raised
    by the handler itself propagates. *)
Definition try_except {A} (body : M A) (handler : exn → option (M A)) : M A :=
  λ h, match body h with
       | (inl x, h') => (inl x, h')
       | (inr e, h') =>
           match handler e with
           | Some recover => recover h'
           | None => (inr e, h')
           end
       end.

Section startup.

Variable w : world.

(** Perform a call: the world answers, the history grows. *)
Definition ask (r : request) : M answer :=
  λ h, let a := w h r in
       match a with
       | Raises e => (inr e, h ++ [(r, a)])
       | _ => (inl a, h ++ [(r, a)])
       end.

(** A test that cannot raise: [os.path.isdir] answers [False] where the
    path cannot be examined. *)
Definition query (r : request) : M bool :=
  λ h, let a := w h r in (inl (truthy a), h ++ [(r, a)]).

(** Logging never fails. *)
Definition log (r : request) : M unit := λ h, (inl (), h ++ [(r, Returns)]).

(** Number of [Configuration] objects built so far; the next one gets
    this identity. *)
Definition configurations_built (h : history) : nat :=
  count_where (λ p, match p.1, p.2 with
                    | Create_configuration, Raises _ => false
                    | Create_configuration, _ => true
                    | _, _ => false
                    end) h.

Definition _create_configuration : M config_obj :=
  λ h, bind (ask Create_configuration)
            (λ _, ret (configurations_built h)) h.

Definition _repair_with_default_profile (config : config_obj) : M unit :=
  log (Log_error "MEV can't start without a valid profile configuration. Selecting default profile ...") ;;;
  ask (Set_default_profile config) ;;;
  ask (Load_profiles_if_possible_and_necessary config) ;;;
  ret ().

(** In the [NoProfileError] clause the name [config] is rebound to the
    fresh object; the caller keeps the object it passed. *)
Definition _read_config (config : config_obj) : M unit :=
  try_except
    (ask (Read config true true) ;;; ret ())
    (λ e, match e with
          | NoProfileError =>
              Some (_repair_with_default_profile config ;;;
                    let! config' := _create_configuration in
                    ask (Read config' false true) ;;;
                    ret ())
          | e => if is_Exception e then Some (throw ConfigError) else None
          end).

(** The line logged before [ConfigError] ends with [str(err)], the text of
    the error, which is left out here. *)
Definition _validate_config (config : config_obj) : M unit :=
  try_except
    (ask (Validate config) ;;; ret ())
    (λ err,
       if is_Exception err
       then Some (
         let! migrated := ask (Migrate_from_previous_config config) in
         if truthy migrated
         then log (Log_info "Your configuration has been migrated into the newest format.")
         else (log (Log_error "MEV can't repair your config.json file: invalid format: ") ;;;
               throw ConfigError))
       else None).

(** The statements guarded by [try] in [_create_startup_config]. *)
Definition resolve_and_validate (config : config_obj) : M unit :=
  ask (Ensure_profile config) ;;;
  _validate_config config.

(** The [try] statement of [_create_startup_config] with its [except]
    clause: the caught error is raised again only if the tentacles folder
    exists. *)
Definition guarded_resolution (config : config_obj) : M unit :=
  try_except (resolve_and_validate config)
    (λ e, match e with
          | NoProfileError | ConfigError =>
              (* real issue if tentacles exist otherwise continue *)
              Some (let! exists_dir := query Isdir_tentacles_path in
                    if exists_dir then throw e else ret ())
          | _ => None
          end).

(** The first statements of [_create_startup_config], up to the test of
    [is_first_startup]. *)
Definition startup_probe : M (config_obj * bool) :=
  log (Log_info "Loading config files...") ;;;
  let! config := _create_configuration in
  let! is_first_startup := ask (Is_config_file_empty_or_missing config) in
  ret (config, truthy is_first_startup).

Definition _create_startup_config : M (config_obj * bool) :=
  let! probe := startup_probe in
  let config := probe.1 in
  let is_first_startup := probe.2 in
  if is_first_startup
  then
    log (Log_info "No configuration found creating default configuration...") ;;;
    ask Init_config ;;;
    ask (Read config false false) ;;;
    ret (config, is_first_startup)
  else
    _read_config config ;;;
    guarded_resolution config ;;;
    ret (config, is_first_startup).

End startup.

(** *** Observations on a history *)

Definition is_repair (p : request * answer) : bool :=
  match p.1 with Set_default_profile _ => true | _ => false end.

(** Number of repair attempts (selections of the default profile). *)
Definition repairs (h : history) : nat := count_where is_repair h.

(** [m] only appends to the history, and what it appends holds [n]
    repair attempts. *)
Definition appends {A} (n : nat) (m : M A) : Prop :=
  ∀ h, ∃ seg, (m h).2 = h ++ seg ∧ repairs seg = n.

(** The kinds of calls, whatever their arguments. *)
Inductive kind : Type :=
| K_create_configuration | K_is_config_file_empty_or_missing | K_init_config
| K_read | K_set_default_profile | K_load_profiles | K_ensure_profile
| K_validate | K_migrate | K_isdir | K_log.

#[global] Instance kind_eq_dec : EqDecision kind.
Proof. solve_decision. Defined.

Definition kind_of (r : request) : kind :=
  match r with
  | Create_configuration => K_create_configuration
  | Is_config_file_empty_or_missing _ => K_is_config_file_empty_or_missing
  | Init_config => K_init_config
  | Read _ _ _ => K_read
  | Set_default_profile _ => K_set_default_profile
  | Load_profiles_if_possible_and_necessary _ => K_load_profiles
  | Ensure_profile _ => K_ensure_profile
  | Validate _ => K_validate
  | Migrate_from_previous_config _ => K_migrate
  | Isdir_tentacles_path => K_isdir
  | Log_info _ | Log_error _ => K_log
  end.

(** Number of calls of a history that pass the test [k]. *)
Definition calls_where (k : request → bool) (h : history) : nat :=
  count_where (λ p, k p.1) h.

(** [m] only appends to the history, at most [n] calls passing [k]. *)
Definition at_most {A} (k : request → bool) (n : nat) (m : M A) : Prop :=
  ∀ h, ∃ seg, (m h).2 = h ++ seg ∧ calls_where k seg ≤ n.

(** How often a call of each kind can be made while the start-up
    configuration is loaded. *)
Definition call_limit (κ : kind) : nat :=
  match κ with
  | K_create_configuration | K_read => 2
  | K_log => 3
  | _ => 1
  end.

(** The configuration object a call is about. *)
Definition object_of (r : request) : option config_obj :=
  match r with
  | Is_config_file_empty_or_missing c | Read c _ _ | Set_default_profile c
  | Load_profiles_if_possible_and_necessary c | Ensure_profile c
  | Validate c | Migrate_from_previous_config c => Some c
  | _ => None
  end.

(** A call about the configuration object [first], about no object, or
    a read that does not raise and fills the missing fields. *)
Definition concerns (first : config_obj) (r : request) : Prop :=
  match r with
  | Read _ false true => True
  | _ => object_of r = None ∨ object_of r = Some first
  end.

(** [m] only appends calls that satisfy [P]. *)
Definition issues {A} (P : request → Prop) (m : M A) : Prop :=
  ∀ h, ∃ seg, (m h).2 = h ++ seg ∧ Forall (λ p, P p.1) seg.

(** The tentacles folder was looked for and found. *)
Definition tentacles_found (h : history) : Prop :=
  ∃ a, (Isdir_tentacles_path, a) ∈ h ∧ truthy a = true.

(** The tentacles folder was looked for and not found. *)
Definition tentacles_missing (h : history) : Prop :=
  ∃ a, (Isdir_tentacles_path, a) ∈ h ∧ truthy a = false.

(** Profile resolution was run on the object [config] and returned. *)
Definition resolved_on (config : config_obj) (h : history) : Prop :=
  ∃ a, (Ensure_profile config, a) ∈ h ∧ ∀ e, a ≠ Raises e.

(** A call about the configuration object [config] or about no object. *)
Definition about (config : config_obj) (r : request) : Prop :=
  object_of r = None ∨ object_of r = Some config.

(** The requests of a history, without their outcomes. *)
Definition requests (h : history) : list request := h.*1.

(** Outcome of profile resolution, if it ran. *)
Fixpoint profile_resolution (h : history) : option answer :=
  match h with
  | [] => None
  | (Ensure_profile _, a) :: _ => Some a
  | _ :: h' => profile_resolution h'
  end.

(** Profile resolution ran and returned. *)
Definition profile_resolved (h : history) : bool :=
  match profile_resolution h with
  | Some Returns | Some (Returns_bool _) => true
  | Some (Raises _) | None => false
  end.

(** The claim of the specification on the repair: one repair attempt, then
    either the load succeeds with a profile resolved, or it fails with
    [NoProfileError]. *)
Definition repaired_or_fatal (w : world) : Prop :=
  repairs (_create_startup_config w []).2 = 1 ∧
  ((_create_startup_config w []).1 = inr NoProfileError ∨
   ((∃ result, (_create_startup_config w []).1 = inl result) ∧
    profile_resolved (_create_startup_config w []).2 = true)).

(** A configuration file naming a profile that does not exist, the
    default profile missing as well, and no tentacles folder. *)
Definition world_without_profiles : world :=
  λ h r, match r with
         | Is_config_file_empty_or_missing _ => Returns_bool false
         | Read _ true _ => Raises NoProfileError
         | Ensure_profile _ => Raises NoProfileError
         | Isdir_tentacles_path => Returns_bool false
         | _ => Returns
         end.

(** A configuration file naming a profile that does not exist, with the
    default profile at hand. *)
Definition world_with_default_profile : world :=
  λ h r, match r with
         | Is_config_file_empty_or_missing _ => Returns_bool false
         | Read _ true _ => Raises NoProfileError
         | Isdir_tentacles_path => Returns_bool true
         | _ => Returns
         end.


(** A configuration file that cannot be parsed. *)
Definition world_unreadable : world :=
  λ h r, match r with
         | Is_config_file_empty_or_missing _ => Returns_bool false
         | Read _ true _ => Raises (OtherException "JSONDecodeError")
         | _ => Returns
         end.

End Cli.

(** * Model of the community fields ([community_fields.py]) *)

Module Community.

Inductive CommunityFields : Type :=
| ID | CURRENT_SESSION | STARTED_AT | UP_TIME | VERSION | SIMULATOR | TRADER
| EVAL_CONFIG | PAIRS | EXCHANGES | EXCHANGE_TYPES | NOTIFICATIONS | TYPE
| PLATFORM | REFERENCE_MARKET | PORTFOLIO_VALUE | PROFITABILITY
| TRADED_VOLUMES | SUPPORTS | ROLES | DONATIONS | SIGNAL_EMITTER
| SIGNAL_RECEIVER | COMMUNITY_BOT_TYPE | PROFILE_NAME | PROFILE_ID
| PROFILE_IMPORTED.

(** [member.value] *)
Definition value (member : CommunityFields) : string :=
  match member with
  | ID => "_id"
  | CURRENT_SESSION => "currentsession"
  | STARTED_AT => "startedat"
  | UP_TIME => "uptime"
  | VERSION => "version"
  | SIMULATOR => "simulator"
  | TRADER => "trader"
  | EVAL_CONFIG => "evalconfig"
  | PAIRS => "pairs"
  | EXCHANGES => "exchanges"
  | EXCHANGE_TYPES => "exchangetypes"
  | NOTIFICATIONS => "notifications"
  | TYPE => "type"
  | PLATFORM => "platform"
  | REFERENCE_MARKET => "referencemarket"
  | PORTFOLIO_VALUE => "portfoliovalue"
  | PROFITABILITY => "profitability"
  | TRADED_VOLUMES => "tradedvolumes"
  | SUPPORTS => "supports"
  | ROLES => "roles"
  | DONATIONS => "donations"
  | SIGNAL_EMITTER => "signalemitter"
  | SIGNAL_RECEIVER => "signalreceiver"
  | COMMUNITY_BOT_TYPE => "communitybottype"
  | PROFILE_NAME => "profilename"
  | PROFILE_ID => "profileid"
  | PROFILE_IMPORTED => "profileimported"
  end.

(** The members in the order of their definition, the order in which
    [enum.Enum] registers them and iterates over them. *)
Definition members : list CommunityFields :=
  [ID; CURRENT_SESSION; STARTED_AT; UP_TIME; VERSION; SIMULATOR; TRADER;
   EVAL_CONFIG; PAIRS; EXCHANGES; EXCHANGE_TYPES; NOTIFICATIONS; TYPE;
   PLATFORM; REFERENCE_MARKET; PORTFOLIO_VALUE; PROFITABILITY;
   TRADED_VOLUMES; SUPPORTS; ROLES; DONATIONS; SIGNAL_EMITTER;
   SIGNAL_RECEIVER; COMMUNITY_BOT_TYPE; PROFILE_NAME; PROFILE_ID;
   PROFILE_IMPORTED].

(** [CommunityFields(v)]: the first member defined with the value [v];
    [None] stands for the [ValueError] raised when there is none. *)
Definition of_value (v : string) : option CommunityFields :=
  List.find (λ member, String.eqb (value member) v) members.

End Community.

(** * Model of the session and forced configuration steps ([cli.py]) *)

Module Boot.

Section boot.

(** Exception objects. The classes of [MEV_commons.authentication] and of
    [src.community.errors] are not under src/: what is known of an
    exception is which [except] clauses it matches. *)
Context {exc : Type}.

(** The constants of [src.constants] read by these steps, the class
    tests of the [except] clauses and the list comprehension of
    [_apply_env_variables_to_config]. *)
Record setting : Type := Setting {
  IS_CLOUD_ENV : bool;
  USER_ACCOUNT_EMAIL : option string;
  USER_PASSWORD_TOKEN : option string;
  TO_DOWNLOAD_PROFILES : option string;
  FORCED_PROFILE : option string;
  (** [isinstance(e, authentication.AuthenticationError)] *)
  is_AuthenticationError : exc → bool;
  (** [isinstance(e, authentication.FailedAuthentication)] *)
  is_FailedAuthentication : exc → bool;
  (** [isinstance(e, MEV_community.errors.BotError)] *)
  is_BotError : exc → bool;
  (** [isinstance(e, Exception)]: false for the classes that derive from
      [BaseException] only, such as [KeyboardInterrupt], [SystemExit] and
      [asyncio.CancelledError] *)
  is_Exception : exc → bool;
  (** [[url.strip() for url in s.split(",")]] *)
  split_and_strip : string → list string;
  (** the [AttributeError] raised on an object without the attribute *)
  AttributeError : exc;
  (** the lines of [disclaimer.DISCLAIMER] *)
  DISCLAIMER : list string;
  (** the class tests of the [except] clauses of [start_MEV] *)
  is_ConfigError : exc → bool;
  is_NoProfileError : exc → bool;
  is_ModuleNotFoundError : exc → bool;
  is_ConfigEvaluatorError : exc → bool;
  is_ConfigTradingError : exc → bool;
  (** ['tentacles' in str(e)] *)
  mentions_tentacles : exc → bool;
  (** the exception built by [raise errors.ConfigError] *)
  new_ConfigError : exc;
}.

(** The calls that leave these functions. *)
Inductive request : Type :=
| Use_environment_from_config
| Create_community_authentication
| Is_initialized
| Login (email password_token : option string)
| Is_tentacles_architecture_valid
| Async_init_account (fetch_private_data : bool)
| Get_startup_info
| Download_and_select_profile (urls : list string) (forced : option string)
| Isfile_reference_tentacle_config
| Load_profiles_if_possible_and_necessary
| Get_tentacles_config_path
| Get_tentacles_setup_config
| Run_update_or_repair_tentacles_if_necessary
| Run_tentacles_install_or_update
| Print_version
| Init_logger
| Get_current_platform
| Get_MEV_type
| Create_startup_config
| Is_loaded
| Exchange_keys_encrypter
| Update_config_with_args
| Accepted_terms
| Config_health_check (in_backtesting : bool)
| Register_error_uploader
| Apply_config_limits
| Create_backtesting_factory
    (run_on_common_part_only enable_join_timeout enable_logs : bool)
| Create_MEV (reset_trading_history : bool)
| Set_global_bot_instance
| Set_community_identifier (identifier : string)
| Update_bot
| Start_strategy_optimizer (strategy : list string)
| Disable_interfaces (interface_identifier : string)
| Run_bot
| Os_exit (status : Z)
| Log_debug (text : string)
| Log_info (text : string)
| Log_warning (text : string)
| Log_error (text : string)
| Log_exception.

(** How a call ends. [Returns_startup_info] is the object returned by
    [get_startup_info], with its two attributes. *)
Inductive answer : Type :=
| Returns
| Returns_bool (b : bool)
| Returns_startup_info (subscribed_products_urls : list string)
    (forced_profile_url : option string)
| Returns_count (n : nat)
| Raises (e : exc).

Definition history : Type := list (request * answer).

(** The control plane, the accounts and the disk: they decide the outcome
    of every call from what happened before. *)
Definition world : Type := history → request → answer.

(** Python truth value of what a call returned. *)
Definition truthy (a : answer) : bool :=
  match a with
  | Returns_bool b => b
  | Returns_startup_info _ _ => true
  | Returns_count n => negb (n =? 0)
  | _ => false
  end.

(** Python truth value of a constant that is [None] or a string. *)
Definition truthy_str (s : option string) : bool :=
  match s with Some EmptyString | None => false | Some _ => true end.

Definition M (A : Type) : Type := history → (A + exc) * history.

Definition ret {A} (x : A) : M A := λ h, (inl x, h).

Definition throw {A} (e : exc) : M A := λ h, (inr e, h).

Definition bind {A B} (m : M A) (k : A → M B) : M B :=
  λ h, match m h with
       | (inl x, h') => k x h'
       | (inr e, h') => (inr e, h')
       end.

Notation "'let!' x := m 'in' k" := (bind m (λ x, k))
  (at level 10, x name, m at level 100, k at level 200).
Notation "m ;;; k" := (bind m (λ _, k))
  (at level 100, right associativity).

(** [try: body  except ...: handler]; [handler] answers [None] for an
    exception no clause catches; what the handler raises propagates. *)
Definition try_except {A} (body : M A) (handler : exc → option (M A)) : M A :=
  λ h, match body h with
       | (inl x, h') => (inl x, h')
       | (inr e, h') =>
           match handler e with
           | Some recover => recover h'
           | None => (inr e, h')
           end
       end.

Variable E : setting.
Variable w : world.

Definition ask (r : request) : M answer :=
  λ h, let a := w h r in
       match a with
       | Raises e => (inr e, h ++ [(r, a)])
       | _ => (inl a, h ++ [(r, a)])
       end.

(** A test that cannot raise ([os.path.isfile]). *)
Definition query (r : request) : M bool :=
  λ h, let a := w h r in (inl (truthy a), h ++ [(r, a)]).

(** Logging never fails. *)
Definition log (r : request) : M unit := λ h, (inl (), h ++ [(r, Returns)]).

Definition _apply_community_startup_info_to_config : M unit :=
  try_except
    (let! startup_info := ask Get_startup_info in
     log (Log_debug "Fetched startup info") ;;;
     match startup_info with
     | Returns_startup_info subscribed_products_urls forced_profile_url =>
         ask (Download_and_select_profile subscribed_products_urls
                forced_profile_url) ;;;
         ret ()
     | _ => throw (AttributeError E)
     end)
    (λ err,
       if is_BotError E err then Some (ret ())
       else if is_FailedAuthentication E err
       then Some (log (Log_error "Failed authentication when fetching bot startup info"))
       else if is_Exception E err
       then Some (log (Log_error "Error when fetching community startup info"))
       else None).

(** The urls named by [TO_DOWNLOAD_PROFILES]. *)
Definition profiles_to_download : list string :=
  match TO_DOWNLOAD_PROFILES E with
  | Some s => if truthy_str (Some s) then split_and_strip E s else []
  | None => []
  end.

Definition _apply_env_variables_to_config : M unit :=
  ask (Download_and_select_profile profiles_to_download (FORCED_PROFILE E)) ;;;
  ret ().

(** The [try] statement of [_get_authenticated_community_if_possible]. *)
Definition initialize_session : M unit :=
  try_except
    (let! initialized := ask Is_initialized in
     if negb (truthy initialized)
     then
       (if IS_CLOUD_ENV E && truthy_str (USER_ACCOUNT_EMAIL E) &&
           truthy_str (USER_PASSWORD_TOKEN E)
        then
          try_except
            (ask (Login (USER_ACCOUNT_EMAIL E) (USER_PASSWORD_TOKEN E)) ;;;
             ret ())
            (λ err,
               if is_AuthenticationError E err
               then Some (log (Log_debug "Password token auth failure. Trying with saved session."))
               else None)
        else ret ()) ;;;
       let! initialized := ask Is_initialized in
       if negb (truthy initialized)
       then
         (* try with saved credentials if any *)
         let! has_tentacles := ask Is_tentacles_architecture_valid in
         let fetch_private_data :=
           negb (truthy has_tentacles) || IS_CLOUD_ENV E in
         ask (Async_init_account fetch_private_data) ;;;
         ret ()
       else ret ()
     else ret ())
    (λ err,
       if is_FailedAuthentication E err
       then Some (log (Log_error "Failed authentication when initializing community authenticator"))
       else if is_Exception E err
       then Some (log (Log_error "Error when initializing community authenticator"))
       else None).

Definition _get_authenticated_community_if_possible : M unit :=
  (* switch environments if necessary *)
  ask Use_environment_from_config ;;;
  ask Create_community_authentication ;;;
  initialize_session ;;;
  ret ().

Definition _async_load_community_data (is_first_startup : bool) : M unit :=
  if IS_CLOUD_ENV E && is_first_startup
  then
    (* auto config *)
    _apply_community_startup_info_to_config
  else ret ().

Definition _apply_forced_configs (is_first_startup : bool) : M unit :=
  _async_load_community_data is_first_startup ;;;
  (* 2. handle profiles from env variables *)
  _apply_env_variables_to_config.

Definition _load_or_create_tentacles : M unit :=
  let! present := query Isfile_reference_tentacle_config in
  if present
  then
    (* when tentacles folder already exists *)
    ask Load_profiles_if_possible_and_necessary ;;;
    ask Get_tentacles_config_path ;;;
    ask Get_tentacles_setup_config ;;;
    ask Run_update_or_repair_tentacles_if_necessary ;;;
    ret ()
  else
    (* when no tentacles folder has been found *)
    log (Log_info "MEV tentacles can't be found. Installing default tentacles ...") ;;;
    ask Run_tentacles_install_or_update ;;;
    ask Load_profiles_if_possible_and_necessary ;;;
    ret ().

(** *** [start_MEV] *)

(** The attributes of [args] read by [start_MEV]. *)
Record start_args : Type := StartArgs {
  version : bool;
  encrypter : bool;
  backtesting : bool;
  whole_data_range : bool;
  enable_backtesting_timeout : bool;
  no_logs : bool;
  reset_trading_history : bool;
  identifier : list string;
  update : bool;
  strategy_optimizer : list string;
  no_telegram : bool;
  no_web : bool;
}.

(** How [start_MEV] ends when it does not raise: it returns, or the
    process is ended by [os._exit]. *)
Inductive outcome : Type :=
| Returned
| Exited (status : Z).

(** [for x in l: body(x)] *)
Fixpoint for_each {A} (l : list A) (body : A → M unit) : M unit :=
  match l with
  | [] => ret ()
  | x :: l' => body x ;;; for_each l' body
  end.

Definition _log_terms_if_unaccepted : M unit :=
  let! accepted := ask Accepted_terms in
  if negb (truthy accepted)
  then
    log (Log_info "*** Disclaimer ***") ;;;
    for_each (DISCLAIMER E) (λ line, log (Log_info line)) ;;;
    log (Log_info "... Disclaimer ...")
  else log (Log_info "Disclaimer accepted by user.").

(** [str.lower] and [str.capitalize] on an identifier made of ASCII
    letters. *)
Fixpoint lower (s : string) : string :=
  match s with
  | EmptyString => EmptyString
  | String c s' =>
      String (Ascii.ascii_of_nat
                (let n := Ascii.nat_of_ascii c in
                 if (65 <=? n) && (n <=? 90) then n + 32 else n))
        (lower s')
  end.

Definition capitalize (s : string) : string :=
  match s with
  | EmptyString => EmptyString
  | String c s' =>
      String (Ascii.ascii_of_nat
                (let n := Ascii.nat_of_ascii c in
                 if (97 <=? n) && (n <=? 122) then n - 32 else n))
        (lower s')
  end.

(** [disable_interfaces] returns a count, compared with [0] (to which
    [False] is equal). *)
Definition _disable_interface_from_param (interface_identifier : string)
    (param_value : bool) : M unit :=
  if param_value
  then
    let! disabled := ask (Disable_interfaces interface_identifier) in
    match disabled with
    | Returns_count 0 | Returns_bool false =>
        log (Log_warning ("No " ++ interface_identifier ++ " interface to disable"))
    | _ => log (Log_info (capitalize interface_identifier ++ " interface disabled"))
    end
  else ret ().

Definition _log_environment : M unit :=
  try_except
    (ask Get_current_platform ;;;
     ask Get_MEV_type ;;;
     log (Log_info "Running MEV"))
    (λ e,
       if is_Exception E e
       then Some (log (Log_error "Impossible to identify the current running environment"))
       else None).

(** The call did not raise. *)
Definition returned (a : answer) : bool :=
  match a with Raises _ => false | _ => true end.

(** [logger], which is [None] when [start_MEV] begins, is bound once
    [init_logger] has returned; [start] is the number of calls made before
    [start_MEV] began. *)
Definition logger_ready (start : nat) (h : history) : bool :=
  existsb (λ p, match p with
                | (Init_logger, Raises _) => false
                | (Init_logger, _) => true
                | _ => false
                end) (drop start h).

(** A call of a method of [logger] in an [except] clause of
    [start_MEV]: [logger] is still [None] when the error came before
    [init_logger] returned. *)
Definition logger_call (start : nat) (r : request) : M unit :=
  λ h, if logger_ready start h then log r h else throw (AttributeError E) h.

(** [os._exit(-1)] *)
Definition exit_failure : M outcome :=
  log (Os_exit (-1)) ;;; ret (Exited (-1)).

(** From the logger to the loaded configuration; the result is
    [is_first_startup], the truth value carried by the answer of
    [_create_startup_config]. *)
Definition load_configuration : M bool :=
  ask Init_logger ;;;
  (* Version *)
  log (Log_info "Version") ;;;
  (* Current running environment *)
  _log_environment ;;;
  (* load configuration *)
  let! startup_config := ask Create_startup_config in
  (* check config loading *)
  let! loaded := ask Is_loaded in
  if negb (truthy loaded)
  then throw (new_ConfigError E)
  else ret (truthy startup_config).

(** From the arguments to the configuration limits. *)
Definition prepare_configuration (args : start_args)
    (is_first_startup : bool) : M unit :=
  (* add args to config *)
  ask Update_config_with_args ;;;
  (* show terms *)
  _log_terms_if_unaccepted ;;;
  (if backtesting args then ret ()
   else _get_authenticated_community_if_possible) ;;;
  (* tries to load, install or repair tentacles *)
  _load_or_create_tentacles ;;;
  (* patch setup with forced values *)
  (if negb (backtesting args) then _apply_forced_configs is_first_startup
   else ret ()) ;;;
  (* Can now perform config health check (some checks require a loaded profile) *)
  ask (Config_health_check (backtesting args)) ;;;
  (* Keep track of errors if any *)
  ask Register_error_uploader ;;;
  (* Apply config limits if any *)
  ask Apply_config_limits ;;;
  ret ().

(** From the creation of the bot to its run. *)
Definition create_and_run (args : start_args) : M outcome :=
  (* create MEV instance *)
  (if backtesting args
   then ask (Create_backtesting_factory (negb (whole_data_range args))
               (enable_backtesting_timeout args) (negb (no_logs args)))
   else ask (Create_MEV (reset_trading_history args))) ;;;
  (* set global bot instance *)
  ask Set_global_bot_instance ;;;
  (match identifier args with
   | first :: _ =>
       (* set community identifier *)
       ask (Set_community_identifier first) ;;; ret ()
   | [] => ret ()
   end) ;;;
  if update args
  then ask Update_bot ;;; ret Returned
  else
    match strategy_optimizer args with
    | _ :: _ =>
        ask (Start_strategy_optimizer (strategy_optimizer args)) ;;;
        ret Returned
    | [] =>
        (* In those cases load MEV *)
        _disable_interface_from_param "telegram" (no_telegram args) ;;;
        _disable_interface_from_param "web" (no_web args) ;;;
        ask Run_bot ;;;
        ret Returned
    end.

(** The statements guarded by [try] in [start_MEV]. *)
Definition start_MEV_body (args : start_args) : M outcome :=
  if version args
  then ask Print_version ;;; ret Returned
  else
    let! is_first_startup := load_configuration in
    (* Handle utility methods before bot initializing if possible *)
    if encrypter args
    then ask Exchange_keys_encrypter ;;; ret Returned
    else
      prepare_configuration args is_first_startup ;;;
      create_and_run args.

(** The [except] clauses of [start_MEV], in their order. *)
Definition fatal_handler (start : nat) (e : exc) : option (M outcome) :=
  if is_ConfigError E e
  then Some (logger_call start (Log_error "MEV can't start without a valid configuration file.") ;;;
             exit_failure)
  else if is_NoProfileError E e
  then Some (logger_call start (Log_error "Missing default profiles.") ;;;
             exit_failure)
  else if is_ModuleNotFoundError E e
  then Some ((if mentions_tentacles E e
              then logger_call start (Log_error "Impossible to start MEV, tentacles are missing.")
              else logger_call start Log_exception) ;;;
             exit_failure)
  else if is_ConfigEvaluatorError E e
  then Some (logger_call start (Log_error "MEV can't start without a valid  configuration file.") ;;;
             exit_failure)
  else if is_ConfigTradingError E e
  then Some (logger_call start (Log_error "MEV can't start without a valid configuration file.") ;;;
             exit_failure)
  else None.

Definition start_MEV (args : start_args) : M outcome :=
  λ h, try_except (start_MEV_body args) (fatal_handler (length h)) h.

(** An error caught by one of the [except] clauses of [start_MEV]. *)
Definition fatal (e : exc) : bool :=
  is_ConfigError E e || is_NoProfileError E e || is_ModuleNotFoundError E e ||
  is_ConfigEvaluatorError E e || is_ConfigTradingError E e.

(** *** Observations on a history *)

Definition requests (h : history) : list request := h.*1.

(** [m] only appends calls that satisfy [P]. *)
Definition issues {A} (P : request → Prop) (m : M A) : Prop :=
  ∀ h, ∃ seg, (m h).2 = h ++ seg ∧ Forall (λ p, P p.1) seg.




(** [m] only appends to the history, at most [n] calls passing [k]. *)
Definition at_most {A} (k : request → bool) (n : nat) (m : M A) : Prop :=
  ∀ h, ∃ seg, (m h).2 = h ++ seg ∧ count_where (λ p, k p.1) seg ≤ n.




(** The calls that reach the community or build the live bot. *)
Definition offline (r : request) : Prop :=
  match r with
  | Use_environment_from_config | Create_community_authentication
  | Is_initialized | Login _ _ | Is_tentacles_architecture_valid
  | Async_init_account _ | Get_startup_info
  | Download_and_select_profile _ _ | Create_MEV _ => False
  | _ => True
  end.

(** The steps on the bot itself. *)
Definition is_bot_step (r : request) : bool :=
  match r with
  | Create_backtesting_factory _ _ _ | Create_MEV _ | Set_global_bot_instance
  | Set_community_identifier _ | Update_bot | Start_strategy_optimizer _
  | Disable_interfaces _ | Run_bot => true
  | _ => false
  end.

(** The calls [start_MEV] makes whatever the configuration: the version,
    the logger and what is logged, the report on the environment, the
    loading of the configuration and its test, the end of the process. *)
Definition is_preliminary (r : request) : bool :=
  match r with
  | Print_version | Init_logger | Get_current_platform | Get_MEV_type
  | Create_startup_config | Is_loaded | Os_exit _
  | Log_debug _ | Log_info _ | Log_warning _ | Log_error _ | Log_exception =>
      true
  | _ => false
  end.

(** The steps that rely on a loaded configuration: all the others. *)
Definition uses_configuration (r : request) : bool := negb (is_preliminary r).

(** The configuration health check returned. *)
Definition health_check_passed (p : request * answer) : bool :=
  match p with
  | (Config_health_check _, Raises _) => false
  | (Config_health_check _, _) => true
  | _ => false
  end.

(** The configuration said it is loaded. *)
Definition configuration_loaded (p : request * answer) : bool :=
  match p with
  | (Is_loaded, a) => truthy a
  | _ => false
  end.

(** In [seg], every call passing [target] comes after an entry passing
    [guard]. *)
Definition preceded_by (guard : request * answer → bool)
    (target : request → bool) (seg : history) : Prop :=
  ∀ l1 p l2, seg = l1 ++ p :: l2 → target p.1 = true →
             Exists (λ q, guard q = true) l1.

(** [m] only appends to the history, and what it appends has its
    [target] calls after a [guard] entry. *)
Definition gates {A} (guard : request * answer → bool)
    (target : request → bool) (m : M A) : Prop :=
  ∀ h, ∃ seg, (m h).2 = h ++ seg ∧ preceded_by guard target seg.

(** [m] makes no [target] call, and when it returns it has appended a
    [guard] entry. *)
Definition establishes {A} (guard : request * answer → bool)
    (target : request → bool) (m : M A) : Prop :=
  ∀ h, ∃ seg,
    (m h).2 = h ++ seg ∧
    Forall (λ p, target p.1 = false) seg ∧
    (∀ x, (m h).1 = inl x → Exists (λ q, guard q = true) seg).

Definition is_login (r : request) : bool :=
  match r with Login _ _ => true | _ => false end.

Definition is_init_account (r : request) : bool :=
  match r with Async_init_account _ => true | _ => false end.

Definition is_download (r : request) : bool :=
  match r with Download_and_select_profile _ _ => true | _ => false end.

(** The calls allowed by the constants: a login only in the cloud and
    with both credentials, which it passes on; a saved session that leaves
    the private data out only outside the cloud. *)
Definition allowed_by_constants (r : request) : Prop :=
  match r with
  | Login email password_token =>
      IS_CLOUD_ENV E = true ∧
      truthy_str (USER_ACCOUNT_EMAIL E) = true ∧
      truthy_str (USER_PASSWORD_TOKEN E) = true ∧
      email = USER_ACCOUNT_EMAIL E ∧ password_token = USER_PASSWORD_TOKEN E
  | Async_init_account false => IS_CLOUD_ENV E = false
  | _ => True
  end.

End boot.

Notation "'let!' x := m 'in' k" := (bind m (λ x, k))
  (at level 10, x name, m at level 100, k at level 200).
Notation "m ;;; k" := (bind m (λ _, k))
  (at level 100, right associativity).

(** *** Sample runs *)

(** A self-hosted setting without credentials; an exception is the name of
    its class. *)
Definition sample_setting : @setting string := {|
  IS_CLOUD_ENV := false;
  USER_ACCOUNT_EMAIL := None;
  USER_PASSWORD_TOKEN := None;
  TO_DOWNLOAD_PROFILES := None;
  FORCED_PROFILE := None;
  is_AuthenticationError :=
    λ e, String.eqb e "AuthenticationError" ||
         String.eqb e "FailedAuthentication";
  is_FailedAuthentication := λ e, String.eqb e "FailedAuthentication";
  is_BotError := λ e, String.eqb e "BotError";
  is_Exception :=
    λ e, negb (String.eqb e "KeyboardInterrupt" || String.eqb e "SystemExit" ||
               String.eqb e "GeneratorExit" || String.eqb e "CancelledError");
  split_and_strip := λ s, [s];
  AttributeError := "AttributeError";
  DISCLAIMER := ["Do not risk money which you are afraid to lose."];
  is_ConfigError := λ e, String.eqb e "ConfigError";
  is_NoProfileError := λ e, String.eqb e "NoProfileError";
  is_ModuleNotFoundError := λ e, String.eqb e "ModuleNotFoundError";
  is_ConfigEvaluatorError := λ e, String.eqb e "ConfigEvaluatorError";
  is_ConfigTradingError := λ e, String.eqb e "ConfigTradingError";
  mentions_tentacles := λ _, false;
  new_ConfigError := "ConfigError";
|}.

(** Every call returns [None]: in particular [config.is_loaded()] is
    false. *)
Definition world_without_configuration : @world string := λ _ _, Returns.

(** A loaded configuration, accepted terms and installed tentacles; every
    other call returns [None]. *)
Definition world_with_configuration : @world string :=
  λ _ r, match r with
         | Is_loaded | Accepted_terms | Isfile_reference_tentacle_config =>
             Returns_bool true
         | _ => Returns
         end.

(** No option on the command line. *)
Definition plain_args : start_args := {|
  version := false;
  encrypter := false;
  backtesting := false;
  whole_data_range := false;
  enable_backtesting_timeout := false;
  no_logs := false;
  reset_trading_history := false;
  identifier := [];
  update := false;
  strategy_optimizer := [];
  no_telegram := false;
  no_web := false;
|}.

(** [--backtesting] alone. *)
Definition backtesting_args : start_args := {|
  version := false;
  encrypter := false;
  backtesting := true;
  whole_data_range := false;
  enable_backtesting_timeout := false;
  no_logs := false;
  reset_trading_history := false;
  identifier := [];
  update := false;
  strategy_optimizer := [];
  no_telegram := false;
  no_web := false;
|}.

End Boot.

(** * Properties *)

(** ** Counting *)

Lemma count_where_app {A} (p : A → bool) l1 l2 :
  count_where p (l1 ++ l2) = count_where p l1 + count_where p l2.
Proof. induction l1 as [|x l1 IH]; simpl; [done|]. rewrite IH. lia. Qed.

Lemma count_where_none {A} (p : A → bool) l :
  (∀ x, x ∈ l → p x = false) → count_where p l = 0.
Proof.
  induction l as [|x l IH]; simpl; intros H; [done|].
  rewrite (H x); [|left]. rewrite IH; [done|]. intros y Hy. apply H. by right.
Qed.

Lemma count_where_map {A B} (p : B → bool) (f : A → B) l :
  count_where p (map f l) = count_where (λ x, p (f x)) l.
Proof. induction l as [|x l IH]; simpl; [done|]. by rewrite IH. Qed.

Lemma count_where_ext {A} (p q : A → bool) l :
  (∀ x, p x = q x) → count_where p l = count_where q l.
Proof. intros E. induction l as [|x l IH]; simpl; [done|]. by rewrite E, IH. Qed.

(** Occurrences of one value in a duplicate-free list. *)
Lemma count_where_eq_NoDup `{EqDecision A} (a : A) (l : list A) :
  NoDup l →
  count_where (λ x, bool_decide (x = a)) l = if bool_decide (a ∈ l) then 1 else 0.
Proof.
  induction 1 as [|x l Hx Hnd IH]; simpl; [done|].
  rewrite IH. destruct (decide (x = a)) as [->|Hne].
  - rewrite bool_decide_eq_true_2 by done.
    rewrite (bool_decide_eq_false_2 (a ∈ l)) by done.
    rewrite (bool_decide_eq_true_2 (a ∈ a :: l)) by left. done.
  - rewrite (bool_decide_eq_false_2 (x = a)) by done. simpl.
    apply (f_equal (λ b : bool, if b then 1 else 0)).
    apply bool_decide_ext. rewrite elem_of_cons.
    split; [by right|]. intros [->|?]; [congruence|done].
Qed.

(** ** The lifecycle producer *)

Module ProducerFacts.
Import Producer.

Section facts.

Context {Config SetupConfig EditedConfig Service : Type}.

Local Abbreviation plugin := (@plugin_class Service).
Local Abbreviation bot := (@MEV_bot Config SetupConfig).
Local Abbreviation services := (@collaborators Config SetupConfig EditedConfig Service).
Local Abbreviation st := (@state EditedConfig Service).
Local Abbreviation eff := (@effect EditedConfig Service).

Implicit Types (s : st) (MEV : bot) (api : services) (cls : plugin).

(** *** Loops that only send *)

Lemma for_each_perform {A} (l : list A) (f : A → eff) s :
  for_each l (λ x, perform (f x)) s =
  State (interfaces s) (notifiers s) (to_create_notifiers_count s)
        (exchange_manager_ids s) (performed s ++ map f l).
Proof.
  revert s. induction l as [|x l IH]; intros s; simpl.
  - destruct s; simpl. by rewrite app_nil_r.
  - rewrite IH. simpl. by rewrite <- app_assoc.
Qed.

Lemma register_exchange_eq exchange s :
  register_exchange exchange s =
  State (interfaces s) (notifiers s) (to_create_notifiers_count s)
        (exchange_manager_ids s)
        (performed s ++ broadcast_of exchange (live s)).
Proof.
  unfold register_exchange.
  exact (for_each_perform (live s)
           (λ i, Send (UPDATE_EXCHANGE_REGISTRATION i exchange)) s).
Qed.

Lemma _register_existing_exchanges_eq instance s :
  _register_existing_exchanges instance s =
  State (interfaces s) (notifiers s) (to_create_notifiers_count s)
        (exchange_manager_ids s)
        (performed s ++ replay_of instance (exchange_manager_ids s)).
Proof.
  unfold _register_existing_exchanges.
  exact (for_each_perform (exchange_manager_ids s)
           (λ h, Send (UPDATE_EXCHANGE_REGISTRATION instance h)) s).
Qed.

Lemma register_interface_eq k s :
  register_interface (Some k) s =
  State (interfaces s ++ [Some k]) (notifiers s) (to_create_notifiers_count s)
        (exchange_manager_ids s)
        (performed s ++ replay_of (Some k) (exchange_manager_ids s)).
Proof. unfold register_interface. by rewrite _register_existing_exchanges_eq. Qed.

Lemma register_notifier_eq instance s :
  register_notifier instance s =
  State (interfaces s) (notifiers s ++ [instance]) (to_create_notifiers_count s)
        (exchange_manager_ids s)
        (performed s ++ replay_of instance (exchange_manager_ids s) ++
         if length (notifiers s) + 1 =? to_create_notifiers_count s
         then [Process_pending_notifications] else []).
Proof.
  unfold register_notifier. rewrite _register_existing_exchanges_eq. simpl.
  rewrite length_app. simpl.
  destruct (length (notifiers s) + 1 =? to_create_notifiers_count s).
  - unfold perform. simpl. by rewrite <- app_assoc.
  - by rewrite app_nil_r.
Qed.

Lemma flushes_replay_of instance ids :
  flushes (replay_of instance ids : list eff) = 0.
Proof.
  unfold flushes, replay_of. rewrite count_where_map.
  by apply count_where_none.
Qed.

Lemma flushes_broadcast_of exchange l :
  flushes (broadcast_of exchange l : list eff) = 0.
Proof.
  unfold flushes, broadcast_of. rewrite count_where_map.
  by apply count_where_none.
Qed.

Lemma flushes_app (l1 l2 : list eff) :
  flushes (l1 ++ l2) = flushes l1 + flushes l2.
Proof. apply count_where_app. Qed.

(** *** Eligibility *)

Lemma forallb_true_iff {A} (f : A → bool) (l : list A) :
  forallb f l = true ↔ ∀ x, x ∈ l → f x = true.
Proof.
  rewrite forallb_forall. split; intros H x Hx; apply H; by apply list_elem_of_In.
Qed.

(** C4: a plugin class is relevant as an interface exactly when it is
    enabled, activated in the tentacles setup, all its required services
    are enabled, and backtesting is off or supported by the class; it is
    relevant as a notifier exactly when it is enabled in the configuration,
    activated, all its required services are enabled and backtesting is
    off. A disabled required service makes it irrelevant for both roles. *)
Theorem eligibility_rules MEV api cls (backtesting_enabled : bool) :
  (_is_interface_relevant MEV api cls backtesting_enabled = true ↔
     is_enabled api cls = true ∧
     is_tentacle_activated_in_tentacles_setup_config api
       (tentacles_setup_config MEV) (get_name cls) = true ∧
     (∀ service, service ∈ REQUIRED_SERVICES cls →
        get_is_enabled api service (config MEV) = true) ∧
     (backtesting_enabled = false ∨ is_enabled_in_backtesting api cls = true)) ∧
  (_is_notifier_relevant MEV api cls backtesting_enabled = true ↔
     is_enabled_in_config api cls (config MEV) = true ∧
     is_tentacle_activated_in_tentacles_setup_config api
       (tentacles_setup_config MEV) (get_name cls) = true ∧
     (∀ service, service ∈ REQUIRED_SERVICES cls →
        get_is_enabled api service (config MEV) = true) ∧
     backtesting_enabled = false) ∧
  ((∃ service, service ∈ REQUIRED_SERVICES cls ∧
               get_is_enabled api service (config MEV) = false) →
   _is_interface_relevant MEV api cls backtesting_enabled = false ∧
   _is_notifier_relevant MEV api cls backtesting_enabled = false).
Proof.
  assert (Hi : _is_interface_relevant MEV api cls backtesting_enabled = true ↔
     is_enabled api cls = true ∧
     is_tentacle_activated_in_tentacles_setup_config api
       (tentacles_setup_config MEV) (get_name cls) = true ∧
     (∀ service, service ∈ REQUIRED_SERVICES cls →
        get_is_enabled api service (config MEV) = true) ∧
     (backtesting_enabled = false ∨ is_enabled_in_backtesting api cls = true)).
  { unfold _is_interface_relevant.
    rewrite !andb_true_iff, forallb_true_iff, orb_true_iff, andb_true_iff,
      negb_true_iff.
    split.
    - intros [[[He Ha] Hs] Hb]. repeat split; try done.
      destruct Hb as [Hb|[_ Hb]]; [by left|by right].
    - intros (He & Ha & Hs & Hb). repeat split; try done.
      destruct backtesting_enabled; [right|by left].
      destruct Hb as [Hb|Hb]; [done|]. by split. }
  assert (Hn : _is_notifier_relevant MEV api cls backtesting_enabled = true ↔
     is_enabled_in_config api cls (config MEV) = true ∧
     is_tentacle_activated_in_tentacles_setup_config api
       (tentacles_setup_config MEV) (get_name cls) = true ∧
     (∀ service, service ∈ REQUIRED_SERVICES cls →
        get_is_enabled api service (config MEV) = true) ∧
     backtesting_enabled = false).
  { unfold _is_notifier_relevant.
    rewrite !andb_true_iff, forallb_true_iff, negb_true_iff.
    split.
    - by intros [[[He Ha] Hs] Hb].
    - by intros (He & Ha & Hs & Hb). }
  split; [exact Hi|]. split; [exact Hn|].
  intros (service & Hin & Hoff). split.
  - apply not_true_is_false. intros H. apply Hi in H as (_ & _ & Hs & _).
    specialize (Hs service Hin). congruence.
  - apply not_true_is_false. intros H. apply Hn in H as (_ & _ & Hs & _).
    specialize (Hs service Hin). congruence.
Qed.

(** *** Registration of [None] *)

(** C10: [register_interface] ignores [None]: the state, effects
    included, is unchanged. [register_notifier] has no such guard: [None]
    is appended to the notifiers, the recorded exchanges are replayed to
    it, and it counts when the length of the list is compared with the
    number of notifiers to create. *)
Theorem register_none_guard s :
  register_interface None s = s ∧
  register_notifier None s =
    State (interfaces s) (notifiers s ++ [None]) (to_create_notifiers_count s)
          (exchange_manager_ids s)
          (performed s ++ replay_of None (exchange_manager_ids s) ++
           if length (notifiers s) + 1 =? to_create_notifiers_count s
           then [Process_pending_notifications] else []).
Proof. split; [done|]. apply register_notifier_eq. Qed.

(** *** The pending-notification flush *)

Lemma start_frame_refl s : start_frame 0 s s.
Proof. split; try done; lia. Qed.

Lemma start_frame_trans n m s1 s2 s3 :
  start_frame n s1 s2 → start_frame m s2 s3 → start_frame (n + m) s1 s3.
Proof.
  intros [] []. split; try congruence; lia.
Qed.

Lemma start_frame_perform e s :
  is_flush e = false → start_frame 0 s (perform e s).
Proof.
  intros He. split; simpl; try done; try lia.
  rewrite flushes_app. unfold flushes at 2. simpl. rewrite He. lia.
Qed.

Lemma _create_interfaces_frame MEV api in_backtesting s :
  start_frame 0 s (_create_interfaces MEV api in_backtesting s).
Proof.
  unfold _create_interfaces.
  assert (H : start_frame 0 s
            (if bot_api_is_none api
             then perform Initialize_global_project_data s else s)).
  { destruct (bot_api_is_none api);
      [by apply start_frame_perform | apply start_frame_refl]. }
  revert H. generalize (if bot_api_is_none api
             then perform Initialize_global_project_data s else s).
  induction (get_available_interfaces api) as [|cls l IH]; intros s1 H; simpl;
    [done|].
  apply IH. apply (start_frame_trans 0 0 _ _ _ H).
  unfold _create_interface_if_relevant.
  destruct (_is_interface_relevant _ _ _ _);
    [by apply start_frame_perform | apply start_frame_refl].
Qed.

Lemma _create_notifier_class_if_relevant_frame MEV api cls b s :
  start_frame (if _is_notifier_relevant MEV api cls b then 1 else 0) s
    (_create_notifier_class_if_relevant MEV api cls b (get_edited_config api) s).
Proof.
  unfold _create_notifier_class_if_relevant.
  destruct (_is_notifier_relevant _ _ _ _); [|apply start_frame_refl].
  split; simpl; try done.
  rewrite flushes_app. unfold flushes at 2. simpl. lia.
Qed.

Lemma _create_notifiers_frame MEV api in_backtesting s :
  start_frame
    (count_where (λ cls, _is_notifier_relevant MEV api cls in_backtesting)
       (get_available_notifiers api))
    s (_create_notifiers MEV api in_backtesting s).
Proof.
  unfold _create_notifiers. revert s.
  induction (get_available_notifiers api) as [|cls l IH]; intros s; simpl.
  - apply start_frame_refl.
  - eapply start_frame_trans; [|apply IH].
    apply _create_notifier_class_if_relevant_frame.
Qed.

Lemma start_interfaces_frame api s :
  start_frame 0 s (start_interfaces api s).
Proof.
  unfold start_interfaces.
  destruct (negb _).
  - apply (start_frame_trans 0 0 _ (perform (Start_interfaces (interfaces s)) s));
      by apply start_frame_perform.
  - by apply start_frame_perform.
Qed.

Lemma start_frame_start MEV api s :
  start_frame
    (count_where
       (λ cls, _is_notifier_relevant MEV api cls
                 (is_backtesting_enabled api (config MEV)))
       (get_available_notifiers api))
    s (start MEV api s).
Proof.
  unfold start.
  set (N := count_where _ _).
  replace N with (0 + N + 0) by lia.
  eapply start_frame_trans; [|apply start_interfaces_frame].
  eapply start_frame_trans;
    [apply _create_interfaces_frame | apply _create_notifiers_frame].
Qed.

(** One call changes the number of flushes only if it is the
    [register_notifier] that fills the notifier list up to the count. *)
Lemma step_flushes c s :
  flushes (performed (step c s)) =
  flushes (performed s) +
  match c with
  | Call_register_notifier _ =>
      if length (notifiers s) + 1 =? to_create_notifiers_count s then 1 else 0
  | _ => 0
  end.
Proof.
  destruct c as [[k|]|i|h| |h]; cbn [step].
  - rewrite register_interface_eq. simpl.
    rewrite flushes_app, flushes_replay_of. lia.
  - simpl. lia.
  - rewrite register_notifier_eq. simpl.
    rewrite !flushes_app, flushes_replay_of.
    by destruct (_ =? _).
  - rewrite register_exchange_eq. simpl.
    rewrite flushes_app, flushes_broadcast_of. lia.
  - simpl. rewrite flushes_app. unfold flushes at 2. simpl. lia.
  - simpl. lia.
Qed.

Lemma step_notifiers c s :
  to_create_notifiers_count (step c s) = to_create_notifiers_count s ∧
  length (notifiers (step c s)) =
  length (notifiers s) +
  match c with Call_register_notifier _ => 1 | _ => 0 end.
Proof.
  destruct c as [[k|]|i|h| |h]; cbn [step];
    rewrite ?register_interface_eq, ?register_notifier_eq,
      ?register_exchange_eq; simpl; rewrite ?length_app; simpl; split; lia.
Qed.

Lemma run_notifiers calls s :
  to_create_notifiers_count (run calls s) = to_create_notifiers_count s ∧
  length (notifiers (run calls s)) =
  length (notifiers s) + notifier_registrations calls.
Proof.
  revert s. induction calls as [|c calls IH]; intros s; simpl.
  - unfold run, notifier_registrations. simpl. split; [done|lia].
  - destruct (IH (step c s)) as [IH1 IH2].
    destruct (step_notifiers c s) as [H1 H2].
    change (run (c :: calls) s) with (run calls (step c s)).
    rewrite IH1, IH2, H1, H2.
    split; [done|].
    change (notifier_registrations (c :: calls)) with
      ((if match c with Call_register_notifier _ => true | _ => false end
        then 1 else 0) + notifier_registrations calls).
    destruct c; simpl; lia.
Qed.

Lemma run_flushes calls s :
  flushes (performed (run calls s)) =
  flushes (performed s) +
  if (length (notifiers s) <? to_create_notifiers_count s) &&
     (to_create_notifiers_count s <=?
        length (notifiers s) + notifier_registrations calls)
  then 1 else 0.
Proof.
  revert s. induction calls as [|c calls IH]; intros s.
  - unfold run, notifier_registrations. simpl.
    destruct (Nat.ltb_spec (length (notifiers s)) (to_create_notifiers_count s));
      destruct (Nat.leb_spec (to_create_notifiers_count s)
                  (length (notifiers s) + 0)); simpl; lia.
  - change (run (c :: calls) s) with (run calls (step c s)).
    rewrite IH, step_flushes.
    destruct (step_notifiers c s) as [-> ->].
    replace (notifier_registrations (c :: calls)) with
      (match c with Call_register_notifier _ => 1 | _ => 0 end +
       notifier_registrations calls)
      by (unfold notifier_registrations; by destruct c).
    set (n := length (notifiers s)). set (N := to_create_notifiers_count s).
    set (k := notifier_registrations calls).
    destruct c; simpl;
      repeat match goal with
      | |- context [?a <? ?b] => destruct (Nat.ltb_spec a b)
      | |- context [?a <=? ?b] => destruct (Nat.leb_spec a b)
      | |- context [?a =? ?b] => destruct (Nat.eqb_spec a b)
      end; simpl; lia.
Qed.

(** C1: with [N] the number of notifier creation requests published by
    [start], the pending notifications are flushed by the [N]th call of
    [register_notifier] and by no other call: a call flushes exactly when
    it is the [N]th registration, so over any sequence of calls there is
    one flush once [N] registrations arrived and [N] is positive, and none
    otherwise; in particular none at all when [N = 0]. *)
Theorem flush_once_at_Nth_notifier MEV api (ids : list exchange_id) :
  let s0 := start MEV api (init ids) in
  let N := count_where
             (λ cls, _is_notifier_relevant MEV api cls
                       (is_backtesting_enabled api (config MEV)))
             (get_available_notifiers api) in
  to_create_notifiers_count s0 = N ∧
  flushes (performed s0) = 0 ∧
  (∀ calls instance,
     flushes (performed (register_notifier instance (run calls s0))) =
     flushes (performed (run calls s0)) +
     if notifier_registrations calls + 1 =? N then 1 else 0) ∧
  (∀ calls,
     flushes (performed (run calls s0)) =
     if (1 <=? N) && (N <=? notifier_registrations calls) then 1 else 0).
Proof.
  intros s0 N.
  destruct (start_frame_start MEV api (init ids)) as [_ Hn _ Hc Hf].
  fold s0 in Hn, Hc, Hf. fold N in Hc. simpl in Hn, Hc, Hf.
  split; [done|]. split; [done|]. split.
  - intros calls instance.
    change (register_notifier instance (run calls s0)) with
      (step (Call_register_notifier instance) (run calls s0)).
    rewrite step_flushes.
    destruct (run_notifiers calls s0) as [-> ->].
    by rewrite Hn, Hc.
  - intros calls. rewrite run_flushes, Hn, Hc, Hf.
    cbn [length flushes count_where Nat.add].
    repeat match goal with
      | |- context [?a <? ?b] => destruct (Nat.ltb_spec a b)
      | |- context [?a <=? ?b] => destruct (Nat.leb_spec a b)
      end; simpl; lia.
Qed.

(** *** Delivery of exchange handles *)

Lemma indicator_add (P Q R : Prop) `{!Decision P, !Decision Q, !Decision R} :
  ¬ (P ∧ Q) → (R ↔ P ∨ Q) →
  (if bool_decide P then 1 else 0) + (if bool_decide Q then 1 else 0) =
  if bool_decide R then 1 else 0.
Proof. intros Hd Hr. repeat case_bool_decide; tauto || lia. Qed.

Lemma deliveries_app instance exchange (l1 l2 : list eff) :
  deliveries instance exchange (l1 ++ l2) =
  deliveries instance exchange l1 + deliveries instance exchange l2.
Proof. apply count_where_app. Qed.

Lemma deliveries_replay_of instance exchange i (ids : list exchange_id) :
  NoDup ids →
  deliveries instance exchange (replay_of i ids : list eff) =
  if bool_decide (i = instance ∧ exchange ∈ ids) then 1 else 0.
Proof.
  intros Hnd. unfold deliveries, replay_of. rewrite count_where_map. simpl.
  destruct (decide (i = instance)) as [->|Hne].
  - rewrite (count_where_ext _ (λ x, bool_decide (x = exchange))).
    + rewrite count_where_eq_NoDup by done.
      apply (f_equal (λ b : bool, if b then 1 else 0)).
      apply bool_decide_ext. tauto.
    + intros x. by rewrite bool_decide_eq_true_2.
  - rewrite count_where_none.
    + by rewrite bool_decide_eq_false_2 by tauto.
    + intros x _. by rewrite (bool_decide_eq_false_2 (i = instance)).
Qed.

Lemma deliveries_broadcast_of instance exchange h (l : list instance_ref) :
  NoDup l →
  deliveries instance exchange (broadcast_of h l : list eff) =
  if bool_decide (instance ∈ l ∧ h = exchange) then 1 else 0.
Proof.
  intros Hnd. unfold deliveries, broadcast_of. rewrite count_where_map. simpl.
  destruct (decide (h = exchange)) as [->|Hne].
  - rewrite (count_where_ext _ (λ x, bool_decide (x = instance))).
    + rewrite count_where_eq_NoDup by done.
      apply (f_equal (λ b : bool, if b then 1 else 0)).
      apply bool_decide_ext. tauto.
    + intros x. rewrite (bool_decide_eq_true_2 (exchange = exchange)) by done.
      by rewrite andb_true_r.
  - rewrite count_where_none.
    + by rewrite bool_decide_eq_false_2 by tauto.
    + intros x _. rewrite (bool_decide_eq_false_2 (h = exchange)) by done.
      by rewrite andb_false_r.
Qed.

Lemma run_app calls1 calls2 s :
  run (calls1 ++ calls2) s = run calls2 (run calls1 s).
Proof.
  unfold run. revert s. induction calls1 as [|c l IH]; intros s; simpl; [done|].
  apply IH.
Qed.

Lemma calls_of_app events1 events2 :
  calls_of (events1 ++ events2) = calls_of events1 ++ calls_of events2.
Proof. unfold calls_of. by rewrite map_app, concat_app. Qed.

Lemma registered_app events1 events2 :
  registered (events1 ++ events2) = registered events1 ++ registered events2.
Proof.
  induction events1 as [|[[k|]|i|h] l IH]; simpl; by rewrite ?IH.
Qed.

Lemma announced_app events1 events2 :
  announced (events1 ++ events2) = announced events1 ++ announced events2.
Proof.
  induction events1 as [|[i|i|h] l IH]; simpl; by rewrite ?IH.
Qed.

(** The effect of one event on a state in which all deliveries so far
    were made exactly once. *)
Lemma event_exactly_once ev s :
  exactly_once s →
  NoDup (live s ++ registered [ev]) →
  NoDup (exchange_manager_ids s ++ announced [ev]) →
  let s' := run (calls_of_event ev) s in
  exactly_once s' ∧
  live s' ≡ₚ live s ++ registered [ev] ∧
  exchange_manager_ids s' = exchange_manager_ids s ++ announced [ev].
Proof.
  intros Hinv Hlive Hids. unfold exactly_once in Hinv.
  destruct ev as [[k|]|i|h]; unfold run; cbn [calls_of_event for_each step];
    simpl in Hlive, Hids; rewrite ?app_nil_r in Hlive; rewrite ?app_nil_r in Hids.
  - (* an interface registers *)
    rewrite register_interface_eq.
    apply NoDup_app in Hlive as (Hl & Hk & _).
    assert (Hfresh : Some k ∉ live s).
    { intros Hin. apply (Hk _ Hin). by left. }
    split; [|split].
    + intros instance exchange. unfold live. simpl.
      rewrite deliveries_app, Hinv, deliveries_replay_of by done.
      apply indicator_add.
      * intros [[Hin _] [ <- _]]. done.
      * unfold live. rewrite !elem_of_app, list_elem_of_singleton.
        split; [intros [[[?| ->]|?] ?]|intros [[[?|?] ?]|[ <- ?]]]; tauto.
    + unfold live. simpl. rewrite <- !app_assoc.
      apply Permutation_app_head. apply Permutation_app_comm.
    + simpl. by rewrite app_nil_r.
  - (* [None] is not registered as an interface *)
    cbn [register_interface].
    split; [done|]. by rewrite !app_nil_r.
  - (* a notifier registers *)
    rewrite register_notifier_eq.
    apply NoDup_app in Hlive as (Hl & Hk & _).
    assert (Hfresh : i ∉ live s).
    { intros Hin. apply (Hk _ Hin). by left. }
    split; [|split].
    + intros instance exchange. unfold live. simpl.
      rewrite !deliveries_app, Hinv, deliveries_replay_of by done.
      replace (deliveries instance exchange
                 (if length (notifiers s) + 1 =? to_create_notifiers_count s
                  then [Process_pending_notifications] else [])) with 0
        by (by destruct (_ =? _)).
      rewrite Nat.add_0_r.
      apply indicator_add.
      * intros [[Hin _] [ <- _]]. done.
      * unfold live. rewrite !elem_of_app, list_elem_of_singleton.
        split; [intros [[?|[?| ->]] ?]|intros [[[?|?] ?]|[ <- ?]]]; tauto.
    + unfold live. simpl. by rewrite app_assoc.
    + simpl. by rewrite app_nil_r.
  - (* an exchange becomes available *)
    rewrite register_exchange_eq. unfold live, record_exchange. simpl.
    apply NoDup_app in Hids as (Hi & Hh & _).
    assert (Hfresh : h ∉ exchange_manager_ids s).
    { intros Hin. apply (Hh _ Hin). by left. }
    split; [|split].
    + intros instance exchange. unfold live. simpl.
      rewrite deliveries_app, Hinv, deliveries_broadcast_of by exact Hlive.
      apply indicator_add.
      * intros [[_ Hin] [_ <-]]. done.
      * unfold live. rewrite !elem_of_app, list_elem_of_singleton.
        split; [intros [? [?| ->]]|intros [[? ?]|[? <-]]]; tauto.
    + by rewrite app_nil_r.
    + done.
Qed.

Lemma events_exactly_once events s :
  exactly_once s →
  NoDup (live s ++ registered events) →
  NoDup (exchange_manager_ids s ++ announced events) →
  let s' := run (calls_of events) s in
  exactly_once s' ∧
  live s' ≡ₚ live s ++ registered events ∧
  exchange_manager_ids s' = exchange_manager_ids s ++ announced events.
Proof.
  revert s. induction events as [|ev events IH]; intros s Hinv Hlive Hids.
  - unfold calls_of, run. simpl. by rewrite !app_nil_r.
  - change (ev :: events) with ([ev] ++ events) in *.
    rewrite registered_app in Hlive. rewrite announced_app in Hids.
    rewrite app_assoc in Hlive, Hids.
    destruct (event_exactly_once ev s Hinv) as (Hinv1 & Hlive1 & Hids1).
    { by apply NoDup_app in Hlive as (? & _ & _). }
    { by apply NoDup_app in Hids as (? & _ & _). }
    cbn zeta. rewrite calls_of_app, run_app.
    replace (calls_of [ev]) with (calls_of_event ev)
      by (unfold calls_of; simpl; by rewrite app_nil_r).
    destruct (IH (run (calls_of_event ev) s) Hinv1) as (Hinv2 & Hlive2 & Hids2).
    { by rewrite Hlive1. }
    { by rewrite Hids1. }
    split; [done|]. split.
    + by rewrite Hlive2, Hlive1, registered_app, app_assoc.
    + by rewrite Hids2, Hids1, announced_app, app_assoc.
Qed.

Lemma init_exactly_once (ids : list exchange_id) :
  exactly_once (init ids : st).
Proof.
  intros instance exchange. unfold live. cbn [init interfaces notifiers app performed].
  rewrite bool_decide_eq_false_2; [done|].
  intros [Hin _]. by apply elem_of_nil in Hin.
Qed.

(** After any duplicate-free sequence of events, each registered
    instance got each known exchange exactly once. *)
Lemma deliveries_after_events (ids0 : list exchange_id) events :
  NoDup (registered events) → NoDup (ids0 ++ announced events) →
  ∀ instance exchange,
    deliveries instance exchange
      (performed (run (calls_of events) (init ids0 : st))) =
    if bool_decide (instance ∈ registered events ∧
                    exchange ∈ ids0 ++ announced events)
    then 1 else 0.
Proof.
  intros Hreg Hann instance exchange.
  destruct (events_exactly_once events (init ids0) (init_exactly_once ids0))
    as (Hinv & Hlive & Hids); [done..|].
  rewrite Hinv. apply (f_equal (λ b : bool, if b then 1 else 0)).
  apply bool_decide_ext. rewrite Hlive, Hids. done.
Qed.

(** C2 (amended): let every exchange that becomes available be
    recorded by the exchange producer and broadcast in one step, let no
    exchange be announced twice and no instance be registered twice. Then
    every registered instance gets every announced exchange exactly once,
    and nobody gets anything else: an instance registered before the
    announcement gets the exchange from the broadcast, an instance
    registered after it gets it from the replay of its registration. *)
Theorem exchange_delivered_exactly_once (ids0 : list exchange_id) events :
  NoDup (registered events) →
  NoDup (ids0 ++ announced events) →
  (∀ instance exchange,
     deliveries instance exchange
       (performed (run (calls_of events) (init ids0 : st))) =
     if bool_decide (instance ∈ registered events ∧
                     exchange ∈ ids0 ++ announced events)
     then 1 else 0) ∧
  (∀ before exchange after instance,
     events = before ++ Exchange_available exchange :: after →
     instance ∈ registered before →
     deliveries instance exchange
       (performed (run (calls_of before) (init ids0 : st))) = 0 ∧
     deliveries instance exchange
       (performed (run (calls_of (before ++ [Exchange_available exchange]))
                     (init ids0 : st))) = 1) ∧
  (∀ before ev after instance exchange,
     events = before ++ ev :: after →
     registered [ev] = [instance] →
     exchange ∈ ids0 ++ announced before →
     deliveries instance exchange
       (performed (run (calls_of before) (init ids0 : st))) = 0 ∧
     deliveries instance exchange
       (performed (run (calls_of (before ++ [ev])) (init ids0 : st))) = 1).
Proof.
  intros Hreg Hann. split; [by apply deliveries_after_events|]. split.
  - intros before exchange after instance -> Hin.
    rewrite registered_app in Hreg. apply NoDup_app in Hreg as (Hreg & _ & _).
    rewrite announced_app in Hann. simpl in Hann.
    rewrite app_assoc in Hann. apply NoDup_app in Hann as (Hann & Hfresh & _).
    split.
    + rewrite deliveries_after_events by done.
      rewrite bool_decide_eq_false_2; [done|].
      intros [_ Hex]. apply (Hfresh _ Hex). by left.
    + rewrite deliveries_after_events.
      * rewrite bool_decide_eq_true_2; [done|].
        rewrite registered_app, announced_app. simpl.
        rewrite app_nil_r, !elem_of_app, list_elem_of_singleton. tauto.
      * rewrite registered_app. simpl. by rewrite app_nil_r.
      * rewrite announced_app, app_assoc. simpl.
        apply NoDup_app. split; [done|]. split; [|apply NoDup_singleton].
        intros x Hx Hx'. apply list_elem_of_singleton in Hx' as ->.
        apply (Hfresh _ Hx). by left.
  - intros before ev after instance exchange -> Hev Hex.
    change (ev :: after) with ([ev] ++ after) in *.
    rewrite app_assoc in Hreg, Hann.
    rewrite registered_app in Hreg. apply NoDup_app in Hreg as (Hreg & _ & _).
    rewrite announced_app in Hann.
    rewrite app_assoc in Hann. apply NoDup_app in Hann as (Hann & _ & _).
    assert (Hreg' := Hreg). assert (Hann' := Hann).
    rewrite registered_app, Hev in Hreg'.
    apply NoDup_app in Hreg' as (Hreg0 & Hfresh & _).
    rewrite announced_app, app_assoc in Hann'.
    apply NoDup_app in Hann' as (Hann0 & _ & _).
    split.
    + rewrite deliveries_after_events by done.
      rewrite bool_decide_eq_false_2; [done|].
      intros [Hin _]. apply (Hfresh _ Hin). by left.
    + rewrite deliveries_after_events by done.
      rewrite bool_decide_eq_true_2; [done|].
      rewrite registered_app, announced_app, Hev.
      rewrite !elem_of_app, list_elem_of_singleton.
      rewrite elem_of_app in Hex. tauto.
Qed.

(** *** Repeated registration *)

(** C5 (amended): [register_interface] appends on every call. After
    two calls with the same instance the list of interfaces holds it
    twice, with the same members as after one call, and each of the two
    calls replays every recorded exchange to the instance: repeated
    registration repeats the deliveries. *)
Theorem register_interface_twice k s :
  let s1 := register_interface (Some k) s in
  let s2 := register_interface (Some k) s1 in
  interfaces s1 = interfaces s ++ [Some k] ∧
  interfaces s2 = interfaces s ++ [Some k; Some k] ∧
  (∀ x, x ∈ interfaces s2 ↔ x ∈ interfaces s1) ∧
  performed s1 = performed s ++ replay_of (Some k) (exchange_manager_ids s) ∧
  performed s2 = performed s1 ++ replay_of (Some k) (exchange_manager_ids s) ∧
  (∀ exchange,
     deliveries (Some k) exchange (performed s2) =
     deliveries (Some k) exchange (performed s) +
     2 * deliveries (Some k) exchange
           (replay_of (Some k) (exchange_manager_ids s) : list eff)).
Proof.
  intros s1 s2. unfold s2, s1. rewrite !register_interface_eq. simpl.
  split; [done|]. split; [by rewrite <- app_assoc|]. split; [|split; [done|]].
  - intros x. rewrite !elem_of_app, list_elem_of_singleton. tauto.
  - split; [done|]. intros exchange. rewrite !deliveries_app. lia.
Qed.

(** *** Stopping *)

(** C8 (amended): [stop] hands the live interfaces, and nothing else,
    to [stop_interfaces]; the lists of interfaces and of notifiers are left
    as they were, so the interfaces stay registered and the notifiers get
    no stop signal from the producer. *)
Theorem stop_signals_interfaces s :
  interfaces (stop s) = interfaces s ∧
  notifiers (stop s) = notifiers s ∧
  performed (stop s) = performed s ++ [Stop_interfaces (interfaces s)] ∧
  signalled_to_stop (performed (stop s)) =
    signalled_to_stop (performed s) ++ interfaces s.
Proof.
  split; [done|]. split; [done|]. split; [done|].
  unfold signalled_to_stop. simpl.
  rewrite map_app, concat_app. simpl. by rewrite app_nil_r.
Qed.

(** *** What [start] publishes *)

Lemma for_each_create_interface MEV api b (l : list plugin) s :
  for_each l
    (λ cls, _create_interface_if_relevant MEV api cls b (get_edited_config api))
    s =
  State (interfaces s) (notifiers s) (to_create_notifiers_count s)
        (exchange_manager_ids s)
        (performed s ++
         map (λ cls, Send (CREATION_INTERFACE (get_edited_config api) b cls))
           (List.filter (λ cls, _is_interface_relevant MEV api cls b) l)).
Proof.
  revert s. induction l as [|cls l IH]; intros s; simpl.
  - destruct s; simpl. by rewrite app_nil_r.
  - rewrite IH. unfold _create_interface_if_relevant.
    destruct (_is_interface_relevant MEV api cls b); simpl; [|done].
    by rewrite <- app_assoc.
Qed.

Lemma for_each_create_notifier MEV api b (l : list plugin) s :
  for_each l
    (λ cls,
       _create_notifier_class_if_relevant MEV api cls b (get_edited_config api))
    s =
  State (interfaces s) (notifiers s)
        (to_create_notifiers_count s +
         length (List.filter (λ cls, _is_notifier_relevant MEV api cls b) l))
        (exchange_manager_ids s)
        (performed s ++
         map (λ cls, Send (CREATION_NOTIFICATION (get_edited_config api) b cls))
           (List.filter (λ cls, _is_notifier_relevant MEV api cls b) l)).
Proof.
  revert s. induction l as [|cls l IH]; intros s; simpl.
  - destruct s; simpl. by rewrite app_nil_r, Nat.add_0_r.
  - rewrite IH. unfold _create_notifier_class_if_relevant.
    destruct (_is_notifier_relevant MEV api cls b); simpl; [|done].
    rewrite <- app_assoc. simpl. f_equal. lia.
Qed.

(** X1: [start] publishes one creation request for each relevant
    interface class, then one for each relevant notifier class, each in
    the order of its factory and with the edited configuration and the
    backtesting flag; it adds the number of notifier requests to the count,
    hands the registered interfaces to [start_interfaces], and leaves the
    lists of instances and of exchanges as they were. *)
Theorem start_publishes_requests MEV api s :
  let in_backtesting := is_backtesting_enabled api (config MEV) in
  start MEV api s =
  State (interfaces s) (notifiers s)
        (to_create_notifiers_count s +
         length (notifier_requests MEV api in_backtesting))
        (exchange_manager_ids s)
        (performed s ++
         (if bot_api_is_none api then [Initialize_global_project_data] else []) ++
         interface_requests MEV api in_backtesting ++
         notifier_requests MEV api in_backtesting ++
         start_interfaces_effects api (interfaces s)).
Proof.
  intros b. unfold start. fold b.
  unfold _create_notifiers, _create_interfaces.
  rewrite for_each_create_interface, for_each_create_notifier. simpl.
  unfold notifier_requests, interface_requests, start_interfaces,
    start_interfaces_effects. rewrite length_map. simpl.
  destruct (bot_api_is_none api), (negb _); unfold perform; simpl; f_equal;
    repeat (rewrite <- app_assoc; simpl); done.
Qed.

Lemma filter_nil_of_false {A} (p : A → bool) (l : list A) :
  (∀ x, p x = false) → List.filter p l = [].
Proof.
  intros Hp. induction l as [|x l IH]; simpl; [done|]. by rewrite Hp.
Qed.

(** X2: under backtesting [start] publishes no notifier request and
    counts no notifier to create, so that no sequence of calls ever
    flushes the pending notifications; and every interface request it
    publishes is for a class enabled in backtesting. *)
Theorem backtesting_start_has_no_notifier MEV api (ids : list exchange_id) :
  is_backtesting_enabled api (config MEV) = true →
  notifier_requests MEV api true = [] ∧
  to_create_notifiers_count (start MEV api (init ids)) = 0 ∧
  (∀ calls, flushes (performed (run calls (start MEV api (init ids)))) = 0) ∧
  (∀ e cls, e ∈ interface_requests MEV api true →
            requested_class e = Some cls →
            is_enabled_in_backtesting api cls = true).
Proof.
  intros Hb.
  assert (Hnone : notifier_requests MEV api true = []).
  { unfold notifier_requests. rewrite filter_nil_of_false; [done|].
    intros cls. unfold _is_notifier_relevant. by rewrite andb_false_r. }
  destruct (start_frame_start MEV api (init ids)) as [_ Hn _ Hc Hf].
  rewrite Hb in Hc. simpl in Hn, Hc, Hf.
  assert (Hcount : to_create_notifiers_count (start MEV api (init ids)) = 0).
  { rewrite Hc. apply count_where_none. intros cls _.
    unfold _is_notifier_relevant. by rewrite andb_false_r. }
  split; [done|]. split; [done|]. split.
  - intros calls. rewrite run_flushes, Hn, Hcount, Hf. done.
  - intros e cls He Hcls. unfold interface_requests in He.
    apply list_elem_of_In, in_map_iff in He as (cls' & <- & Hin).
    apply filter_In in Hin as [_ Hrel]. simpl in Hcls. injection Hcls as <-.
    unfold _is_interface_relevant in Hrel.
    apply andb_true_iff in Hrel as [_ Hrel]. simpl in Hrel.
    done.
Qed.

(** *** Nothing is ever removed *)

Lemma step_grows c s :
  interfaces s `prefix_of` interfaces (step c s) ∧
  notifiers s `prefix_of` notifiers (step c s) ∧
  exchange_manager_ids s `prefix_of` exchange_manager_ids (step c s) ∧
  performed s `prefix_of` performed (step c s).
Proof.
  destruct c as [[k|]|i|h| |h]; cbn [step];
    rewrite ?register_interface_eq, ?register_notifier_eq,
      ?register_exchange_eq; simpl;
    repeat split; try reflexivity; try (eexists; reflexivity).
Qed.

(** X3: over any sequence of registrations, broadcasts, recordings and
    stops, the lists of interfaces, of notifiers and of recorded exchanges
    and the effects performed only grow at their end, and the number of
    notifiers to create does not change: no call, [stop] included, removes
    an instance. *)
Theorem calls_only_append calls s :
  interfaces s `prefix_of` interfaces (run calls s) ∧
  notifiers s `prefix_of` notifiers (run calls s) ∧
  exchange_manager_ids s `prefix_of` exchange_manager_ids (run calls s) ∧
  performed s `prefix_of` performed (run calls s) ∧
  to_create_notifiers_count (run calls s) = to_create_notifiers_count s.
Proof.
  revert s. induction calls as [|c calls IH]; intros s.
  - unfold run. simpl. done.
  - change (run (c :: calls) s) with (run calls (step c s)).
    destruct (IH (step c s)) as (Hi & Hn & He & Hp & Hc).
    destruct (step_grows c s) as (Hi' & Hn' & He' & Hp').
    destruct (step_notifiers c s) as [Hc' _].
    repeat split; try (etrans; eassumption); congruence.
Qed.

(** *** Deliveries when instances or exchanges are repeated *)

(** X4: a broadcast sends the exchange once for each entry of the two
    lists, and a registration replays each entry of the recorded
    exchanges, repetitions included: the number of messages an instance
    gets for an exchange grows by the number of times it is in the lists,
    or the exchange is in the record. *)
Theorem deliveries_count_entries instance exchange s :
  (∀ h, deliveries instance exchange (performed (register_exchange h s)) =
        deliveries instance exchange (performed s) +
        if bool_decide (h = exchange) then occurrences instance (live s) else 0) ∧
  (∀ k, deliveries instance exchange (performed (register_interface (Some k) s)) =
        deliveries instance exchange (performed s) +
        if bool_decide (Some k = instance)
        then occurrences exchange (exchange_manager_ids s) else 0) ∧
  (∀ i, deliveries instance exchange (performed (register_notifier i s)) =
        deliveries instance exchange (performed s) +
        if bool_decide (i = instance)
        then occurrences exchange (exchange_manager_ids s) else 0).
Proof.
  assert (Hreplay : ∀ i,
    deliveries instance exchange
      (replay_of i (exchange_manager_ids s) : list eff) =
    if bool_decide (i = instance)
    then occurrences exchange (exchange_manager_ids s) else 0).
  { intros i. unfold deliveries, replay_of, occurrences.
    rewrite count_where_map. simpl. case_bool_decide as Hi.
    - by apply count_where_ext.
    - by apply count_where_none. }
  split; [|split].
  - intros h. rewrite register_exchange_eq. simpl. rewrite deliveries_app.
    f_equal. unfold deliveries, broadcast_of, occurrences.
    rewrite count_where_map. simpl. case_bool_decide as Hh.
    + apply count_where_ext. intros i. by rewrite andb_true_r.
    + apply count_where_none. intros i _. by rewrite andb_false_r.
  - intros k. rewrite register_interface_eq. simpl.
    by rewrite deliveries_app, Hreplay.
  - intros i. rewrite register_notifier_eq. simpl.
    rewrite !deliveries_app, Hreplay.
    replace (deliveries instance exchange
               (if length (notifiers s) + 1 =? to_create_notifiers_count s
                then [Process_pending_notifications] else [])) with 0
      by (by destruct (_ =? _)).
    lia.
Qed.

(** *** The flush from any state *)

(** X5: from any state, a sequence of calls adds at most one flush, and
    it adds one exactly when the list of notifiers is shorter than the
    count and its registrations reach the count. Once the list is as long
    as the count or longer, no call flushes any more. *)
Theorem flush_from_any_state calls s :
  flushes (performed (run calls s)) =
    flushes (performed s) +
    (if (length (notifiers s) <? to_create_notifiers_count s) &&
        (to_create_notifiers_count s <=?
           length (notifiers s) + notifier_registrations calls)
     then 1 else 0) ∧
  (to_create_notifiers_count s ≤ length (notifiers s) →
   flushes (performed (run calls s)) = flushes (performed s)).
Proof.
  split; [apply run_flushes|].
  intros Hle. rewrite run_flushes.
  destruct (Nat.ltb_spec (length (notifiers s)) (to_create_notifiers_count s));
    simpl; lia.
Qed.

End facts.


(** *** Concrete runs *)

Lemma exchange_delivered_exactly_once_scenario :
  (∀ instance exchange,
     deliveries instance exchange
       (performed (run (calls_of scenario_events)
                     (init [] : @state unit unit))) =
     if bool_decide (instance ∈ registered scenario_events ∧
                     exchange ∈ [] ++ announced scenario_events)
     then 1 else 0) ∧
  (∀ before exchange after instance,
     scenario_events = before ++ Exchange_available exchange :: after →
     instance ∈ registered before →
     deliveries instance exchange
       (performed (run (calls_of before) (init [] : @state unit unit))) = 0 ∧
     deliveries instance exchange
       (performed (run (calls_of (before ++ [Exchange_available exchange]))
                     (init [] : @state unit unit))) = 1) ∧
  (∀ before ev after instance exchange,
     scenario_events = before ++ ev :: after →
     registered [ev] = [instance] →
     exchange ∈ [] ++ announced before →
     deliveries instance exchange
       (performed (run (calls_of before) (init [] : @state unit unit))) = 0 ∧
     deliveries instance exchange
       (performed (run (calls_of (before ++ [ev]))
                     (init [] : @state unit unit))) = 1).
Proof.
  apply (exchange_delivered_exactly_once (EditedConfig := unit)
           (Service := unit) [] scenario_events).
  - apply (bool_decide_unpack _). vm_compute. exact I.
  - apply (bool_decide_unpack _). vm_compute. exact I.
Defined.

(** An interface registered twice gets a later broadcast twice. *)
Lemma double_registration_double_delivery :
  let s := run [Call_register_interface (Some 1);
                Call_register_interface (Some 1);
                Exchange_recorded "binance-1";
                Call_register_exchange "binance-1"]
               (init [] : @state unit unit) in
  deliveries (Some 1) "binance-1" (performed s) = 2 ∧ ¬ exactly_once s.
Proof.
  intros s. assert (H2 : deliveries (Some 1) "binance-1" (performed s) = 2)
    by (vm_compute; reflexivity).
  split; [exact H2|].
  intros H. rewrite (H (Some 1) "binance-1") in H2.
  by destruct (bool_decide _).
Qed.

(** A second registration of the same interface grows the list and
    replays the recorded exchange again. *)
Lemma register_interface_not_idempotent :
  let s1 := register_interface (Some 1) (init ["binance-1"] : @state unit unit) in
  let s2 := register_interface (Some 1) s1 in
  interfaces s2 ≠ interfaces s1 ∧
  ¬ deliveries (Some 1) "binance-1" (performed s2) ≤ 1.
Proof.
  split.
  - vm_compute. discriminate.
  - assert (H : deliveries (Some 1) "binance-1"
                  (performed (register_interface (Some 1)
                     (register_interface (Some 1)
                        (init ["binance-1"] : @state unit unit)))) = 2)
      by (vm_compute; reflexivity).
    rewrite H. lia.
Qed.

(** After [stop] the registered interface is still in the list. *)
Lemma stop_keeps_interfaces :
  interfaces (stop (register_interface (Some 1) (init [] : @state unit unit)))
  = [Some 1] ∧
  interfaces (stop (register_interface (Some 1) (init [] : @state unit unit)))
  ≠ [].
Proof. split; [reflexivity|discriminate]. Qed.


Lemma backtesting_start_has_no_notifier_sample :
  to_create_notifiers_count
    (start backtesting_bot backtesting_api (init ["binance-1"])) = 0 ∧
  (∀ calls,
     flushes (performed
                (run calls
                   (start backtesting_bot backtesting_api (init ["binance-1"]))))
     = 0).
Proof.
  destruct (backtesting_start_has_no_notifier backtesting_bot backtesting_api
              ["binance-1"] eq_refl) as (_ & Hcount & Hflush & _).
  split; [exact Hcount|exact Hflush].
Defined.

End ProducerFacts.

(** ** Start-up *)

Module CliFacts.
Import Cli.

(** *** Assignments to the configuration document *)

Lemma config_ext (c1 c2 : config_dict) :
  (∀ section, is_Some (c1 !! section) ↔ is_Some (c2 !! section)) →
  (∀ section key, getitem section key c1 = getitem section key c2) →
  c1 = c2.
Proof.
  intros Hs Hg. apply map_eq. intros section.
  specialize (Hs section).
  destruct (c1 !! section) as [d1|] eqn:E1, (c2 !! section) as [d2|] eqn:E2.
  - f_equal. apply map_eq. intros key. specialize (Hg section key).
    unfold getitem in Hg. by rewrite E1, E2 in Hg.
  - destruct Hs as [Hs _]. by destruct Hs.
  - destruct Hs as [_ Hs]. by destruct Hs.
  - done.
Qed.

Lemma last_write_app section key ws1 ws2 :
  last_write section key (ws1 ++ ws2) =
  match last_write section key ws2 with
  | Some v => Some v
  | None => last_write section key ws1
  end.
Proof.
  induction ws1 as [|[[sec k] v] ws1 IH]; simpl.
  - by destruct (last_write section key ws2).
  - rewrite IH. by destruct (last_write section key ws2).
Qed.

Lemma performs_skip : performs skip [].
Proof.
  intros c _. exists c. split; [done|]. split; [done|]. by intros.
Qed.

Lemma performs_setitem section key v :
  performs (setitem section key v) [(section, key, v)].
Proof.
  intros c Hc. destruct (Hc (section, key, v)) as [d Hd]; [by left|].
  simpl in Hd. exists (<[section := <[key := v]> d]> c).
  unfold setitem. rewrite Hd. split; [done|]. split.
  - intros sec. destruct (decide (section = sec)) as [<-|Hne].
    + rewrite lookup_insert_eq, Hd. split; eauto.
    + by rewrite lookup_insert_ne.
  - intros sec k. unfold getitem. simpl.
    destruct (decide (section = sec)) as [<-|Hne].
    + rewrite lookup_insert_eq, Hd. simpl.
      destruct (decide (key = k)) as [<-|Hnk].
      * rewrite lookup_insert_eq. by rewrite decide_True.
      * rewrite lookup_insert_ne by done. rewrite decide_False; [done|].
        by intros [_ ?].
    + rewrite lookup_insert_ne by done. rewrite decide_False; [done|].
      by intros [? _].
Qed.

Lemma performs_then s1 s2 ws1 ws2 :
  performs s1 ws1 → performs s2 ws2 → performs (s1 >> s2) (ws1 ++ ws2).
Proof.
  intros H1 H2 c Hc.
  destruct (H1 c) as (c1 & E1 & S1 & G1).
  { intros w Hw. apply Hc. apply elem_of_app. by left. }
  destruct (H2 c1) as (c2 & E2 & S2 & G2).
  { intros w Hw. apply S1. apply Hc. apply elem_of_app. by right. }
  exists c2. unfold then_. rewrite E1. split; [done|]. split.
  - intros sec. by rewrite S2, S1.
  - intros sec k. rewrite G2, G1, last_write_app.
    by destruct (last_write sec k ws2).
Qed.

Lemma performs_when (b : bool) s ws :
  performs s ws → performs (when b s) (if b then ws else []).
Proof. destruct b; [done|]. intros _. apply performs_skip. Qed.

(** A statement that performs a list of assignments changes nothing when
    run again. *)
Lemma performs_idempotent s ws c c' :
  performs s ws → (∀ w, w ∈ ws → is_Some (c !! w.1.1)) →
  s c = (c', None) → s c' = (c', None).
Proof.
  intros Hs Hc E.
  destruct (Hs c Hc) as (c1 & E1 & S1 & G1).
  assert (c1 = c') as -> by congruence.
  destruct (Hs c') as (c2 & E2 & S2 & G2).
  { intros w Hw. apply S1. by apply Hc. }
  rewrite E2. f_equal. apply config_ext; [done|].
  intros sec k. rewrite G2, G1. by destruct (last_write sec k ws).
Qed.

Lemma update_config_with_args_performs K args :
  performs (update_config_with_args K true args) (writes_of K args).
Proof.
  unfold update_config_with_args, writes_of.
  change (when (negb true) (raise ImportError)) with (when false skip).
  apply (performs_then _ _ []); [apply performs_skip|].
  apply performs_then.
  { apply performs_when.
    apply performs_then;
      [apply performs_when, performs_setitem|].
    apply (performs_then _ _ [_]); [apply performs_setitem|].
    apply (performs_then _ _ [_]); apply performs_setitem. }
  apply performs_then.
  { apply performs_when.
    apply (performs_then _ _ [_]); apply performs_setitem. }
  destruct (risk args) as [r|]; [|apply performs_skip].
  apply performs_when, performs_setitem.
Qed.

Lemma writes_of_sections K args c :
  has_sections K c → ∀ w, w ∈ writes_of K args → is_Some (c !! w.1.1).
Proof.
  intros (Hb & Ht & Hs & Hr) w. unfold writes_of.
  rewrite !elem_of_app.
  destruct (backtesting args), (bool_decide (backtesting_files args ≠ [])),
    (simulate args), (risk args) as [r|]; try destruct (risk_in_range r);
    rewrite ?elem_of_app, ?elem_of_cons, ?elem_of_nil;
    intros H; repeat destruct H as [H|H]; subst; simpl; done.
Qed.

Lemma distinct_keys_ne K :
  distinct_keys K →
  CONFIG_BACKTESTING K ≠ CONFIG_TRADER K ∧
  CONFIG_BACKTESTING K ≠ CONFIG_SIMULATOR K ∧
  CONFIG_BACKTESTING K ≠ CONFIG_TRADING K ∧
  CONFIG_TRADER K ≠ CONFIG_SIMULATOR K ∧
  CONFIG_TRADER K ≠ CONFIG_TRADING K ∧
  CONFIG_SIMULATOR K ≠ CONFIG_TRADING K.
Proof.
  intros [Hnd _].
  apply NoDup_cons in Hnd as [H1 Hnd].
  apply NoDup_cons in Hnd as [H2 Hnd].
  apply NoDup_cons in Hnd as [H3 _].
  rewrite !not_elem_of_cons in H1. rewrite !not_elem_of_cons in H2.
  rewrite !not_elem_of_cons in H3. tauto.
Qed.

(** Decide the tests of [last_write] from the distinctness of the keys. *)
Ltac decide_writes :=
  repeat (case_decide;
          [ try (exfalso; intuition congruence)
          | try (exfalso; intuition congruence) ]);
  try done.

(** C6: with the risk override [r] given and [0 < r <= 1], the trading
    risk of the configuration becomes [r]; with [r] outside that range, or
    with no override, the trading risk stays what it was. The document
    holds the sections the function indexes. *)
Theorem risk_override K args (c : config_dict) :
  distinct_keys K →
  has_sections K c →
  ∃ c', update_config_with_args K true args c = (c', None) ∧
    getitem (CONFIG_TRADING K) (CONFIG_TRADER_RISK K) c' =
    match risk args with
    | Some r =>
        if risk_in_range r then Some (VFloat r)
        else getitem (CONFIG_TRADING K) (CONFIG_TRADER_RISK K) c
    | None => getitem (CONFIG_TRADING K) (CONFIG_TRADER_RISK K) c
    end.
Proof.
  intros Hk Hc.
  destruct (update_config_with_args_performs K args c
              (writes_of_sections K args c Hc)) as (c' & E & _ & G).
  exists c'. split; [done|]. rewrite G.
  apply distinct_keys_ne in Hk as (? & ? & ? & ? & ? & ?).
  unfold writes_of.
  destruct (backtesting args), (bool_decide (backtesting_files args ≠ [])),
    (simulate args), (risk args) as [r|]; try destruct (risk_in_range r);
    simpl; decide_writes.
Qed.

(** C7: with backtesting on, whatever the trader and simulator entries
    were, the trader ends disabled and the simulator enabled, and applying
    the same arguments again leaves the document as it is. The document
    holds the sections the function indexes. *)
Theorem backtesting_forces_simulator K args (c : config_dict) :
  distinct_keys K →
  has_sections K c →
  backtesting args = true →
  ∃ c', update_config_with_args K true args c = (c', None) ∧
    getitem (CONFIG_TRADER K) (CONFIG_ENABLED_OPTION K) c' = Some (VBool false) ∧
    getitem (CONFIG_SIMULATOR K) (CONFIG_ENABLED_OPTION K) c' = Some (VBool true) ∧
    update_config_with_args K true args c' = (c', None).
Proof.
  intros Hk Hc Hb.
  pose proof (update_config_with_args_performs K args) as Hp.
  pose proof (writes_of_sections K args c Hc) as Hw.
  destruct (Hp c Hw) as (c' & E & _ & G).
  exists c'. split; [done|].
  apply distinct_keys_ne in Hk as (? & ? & ? & ? & ? & ?).
  split; [|split].
  - rewrite G. unfold writes_of. rewrite Hb.
    destruct (bool_decide (backtesting_files args ≠ [])),
      (simulate args), (risk args) as [r|]; try destruct (risk_in_range r);
      simpl; decide_writes.
  - rewrite G. unfold writes_of. rewrite Hb.
    destruct (bool_decide (backtesting_files args ≠ [])),
      (simulate args), (risk args) as [r|]; try destruct (risk_in_range r);
      simpl; decide_writes.
  - by apply (performs_idempotent _ _ c c' Hp Hw).
Qed.

Lemma default_keys_distinct : distinct_keys default_keys.
Proof.
  split; [|discriminate].
  apply (bool_decide_unpack _). vm_compute. exact I.
Qed.

Lemma sample_config_has_sections : has_sections default_keys sample_config.
Proof. repeat split; eexists; vm_compute; reflexivity. Qed.

Lemma risk_override_sample :
  distinct_keys default_keys ∧ has_sections default_keys sample_config ∧
  ∃ c', update_config_with_args default_keys true
          (StartingArgs false [] false (Some 0.5%float)) sample_config
        = (c', None) ∧
        getitem "trading" "risk" c' = Some (VFloat 0.5%float).
Proof.
  split; [exact default_keys_distinct|].
  split; [exact sample_config_has_sections|].
  exact (risk_override default_keys
           (StartingArgs false [] false (Some 0.5%float)) sample_config
           default_keys_distinct sample_config_has_sections).
Defined.

Lemma backtesting_forces_simulator_sample :
  distinct_keys default_keys ∧ has_sections default_keys sample_config ∧
  ∃ c', update_config_with_args default_keys true
          (StartingArgs true ["data.json"] false None) sample_config
        = (c', None) ∧
        getitem "trader" "enabled" c' = Some (VBool false) ∧
        getitem "trader-simulator" "enabled" c' = Some (VBool true) ∧
        update_config_with_args default_keys true
          (StartingArgs true ["data.json"] false None) c' = (c', None).
Proof.
  split; [exact default_keys_distinct|].
  split; [exact sample_config_has_sections|].
  exact (backtesting_forces_simulator default_keys
           (StartingArgs true ["data.json"] false None) sample_config
           default_keys_distinct sample_config_has_sections eq_refl).
Defined.

(** *** More on the start-up arguments *)

Lemma raises_on_missing_skip : raises_on_missing skip [].
Proof. intros c (w & Hw & _). by apply elem_of_nil in Hw. Qed.

Lemma raises_on_missing_setitem section key v :
  raises_on_missing (setitem section key v) [(section, key, v)].
Proof.
  intros c (w & Hw & Hnone). apply list_elem_of_singleton in Hw as ->.
  simpl in Hnone. unfold setitem. by rewrite Hnone.
Qed.

Lemma raises_on_missing_when (b : bool) s ws :
  raises_on_missing s ws → raises_on_missing (when b s) (if b then ws else []).
Proof. destruct b; [done|]. intros _. apply raises_on_missing_skip. Qed.

Lemma raises_on_missing_then s1 s2 ws1 ws2 :
  performs s1 ws1 → raises_on_missing s1 ws1 → raises_on_missing s2 ws2 →
  raises_on_missing (s1 >> s2) (ws1 ++ ws2).
Proof.
  intros P1 R1 R2 c (w & Hw & Hnone). unfold then_.
  destruct (decide (Forall (λ w, is_Some (c !! w.1.1)) ws1)) as [Hall|Hnot].
  - destruct (P1 c) as (c1 & E1 & S1 & _).
    { intros w1 Hw1. by apply (proj1 (Forall_forall _ _) Hall). }
    rewrite E1. apply R2. exists w. split.
    + apply elem_of_app in Hw as [Hw|Hw]; [|done].
      apply (proj1 (Forall_forall _ _) Hall) in Hw.
      rewrite Hnone in Hw. by destruct Hw.
    + apply eq_None_not_Some. rewrite S1, Hnone. by intros [].
  - apply not_Forall_Exists in Hnot; [|apply _].
    apply Exists_exists in Hnot as (w1 & Hw1 & Hmiss). simpl in Hmiss.
    assert (Hfail : (s1 c).2 = Some KeyError).
    { apply R1. exists w1. split; [done|].
      by apply eq_None_not_Some. }
    destruct (s1 c) as [c1 [e|]]; simpl in Hfail; [|done]. by rewrite Hfail.
Qed.

Lemma update_config_with_args_raises_on_missing K args :
  raises_on_missing (update_config_with_args K true args) (writes_of K args).
Proof.
  unfold update_config_with_args, writes_of.
  change (when (negb true) (raise ImportError)) with (when false skip).
  apply (raises_on_missing_then _ _ []);
    [apply performs_skip | apply raises_on_missing_skip |].
  apply raises_on_missing_then.
  { apply performs_when.
    apply performs_then; [apply performs_when, performs_setitem|].
    apply (performs_then _ _ [_]); [apply performs_setitem|].
    apply (performs_then _ _ [_]); apply performs_setitem. }
  { apply raises_on_missing_when.
    apply raises_on_missing_then;
      [apply performs_when, performs_setitem
      |apply raises_on_missing_when, raises_on_missing_setitem|].
    apply (raises_on_missing_then _ _ [_]);
      [apply performs_setitem | apply raises_on_missing_setitem|].
    apply (raises_on_missing_then _ _ [_]);
      [apply performs_setitem | apply raises_on_missing_setitem
      |apply raises_on_missing_setitem]. }
  apply raises_on_missing_then.
  { apply performs_when. apply (performs_then _ _ [_]); apply performs_setitem. }
  { apply raises_on_missing_when.
    apply (raises_on_missing_then _ _ [_]);
      [apply performs_setitem | apply raises_on_missing_setitem
      |apply raises_on_missing_setitem]. }
  destruct (risk args) as [r|]; [|apply raises_on_missing_skip].
  apply raises_on_missing_when, raises_on_missing_setitem.
Qed.

(** X6: once the backtesting constants are imported,
    [update_config_with_args] returns normally exactly when the document
    holds every section the arguments make it assign to; when one of them
    is missing it raises [KeyError]. *)
Theorem update_config_raises_iff_section_missing K args (c : config_dict) :
  ((update_config_with_args K true args c).2 = None ↔
   ∀ w, w ∈ writes_of K args → is_Some (c !! w.1.1)) ∧
  ((update_config_with_args K true args c).2 ≠ None →
   (update_config_with_args K true args c).2 = Some KeyError).
Proof.
  assert (Hmiss : ¬ (∀ w, w ∈ writes_of K args → is_Some (c !! w.1.1)) →
                  (update_config_with_args K true args c).2 = Some KeyError).
  { intros Hnot. apply update_config_with_args_raises_on_missing.
    destruct (decide (Forall (λ w, is_Some (c !! w.1.1)) (writes_of K args)))
      as [Hall|Hex].
    - destruct Hnot. intros w Hw. by apply (proj1 (Forall_forall _ _) Hall).
    - apply not_Forall_Exists in Hex; [|apply _].
      apply Exists_exists in Hex as (w & Hw & Hnone). exists w.
      split; [done|]. by apply eq_None_not_Some. }
  split; [split|].
  - intros Hok w Hw.
    destruct (decide (is_Some (c !! w.1.1))) as [|Hnone]; [done|].
    rewrite Hmiss in Hok; [done|]. intros Hall. apply Hnone. by apply Hall.
  - intros Hall.
    by destruct (update_config_with_args_performs K args c Hall)
      as (c' & -> & _).
  - intros Hraised. apply Hmiss. intros Hall.
    by destruct (update_config_with_args_performs K args c Hall)
      as (c' & E & _); rewrite E in Hraised.
Qed.

(** X7: with neither backtesting nor simulation asked for, and the risk
    absent or out of range, [update_config_with_args] leaves any document
    as it is and does not raise, whatever sections the document holds. *)
Theorem update_config_without_overrides K args (c : config_dict) :
  backtesting args = false →
  simulate args = false →
  (∀ r, risk args = Some r → risk_in_range r = false) →
  update_config_with_args K true args c = (c, None).
Proof.
  intros Hb Hs Hr. unfold update_config_with_args, then_. rewrite Hb, Hs. simpl.
  destruct (risk args) as [r|]; [|done]. by rewrite (Hr r).
Qed.

(** X9: with simulation asked for, whatever the trader and simulator
    entries were, the trader ends disabled and the simulator enabled,
    applying the same arguments again changes nothing, and, backtesting
    not being asked for, the backtesting entries are left as they were. *)
Theorem simulate_forces_simulator K args (c : config_dict) :
  distinct_keys K →
  has_sections K c →
  simulate args = true →
  ∃ c', update_config_with_args K true args c = (c', None) ∧
    getitem (CONFIG_TRADER K) (CONFIG_ENABLED_OPTION K) c' = Some (VBool false) ∧
    getitem (CONFIG_SIMULATOR K) (CONFIG_ENABLED_OPTION K) c' = Some (VBool true) ∧
    update_config_with_args K true args c' = (c', None) ∧
    (backtesting args = false →
     ∀ key, getitem (CONFIG_BACKTESTING K) key c' =
            getitem (CONFIG_BACKTESTING K) key c).
Proof.
  intros Hk Hc Hs.
  pose proof (update_config_with_args_performs K args) as Hp.
  pose proof (writes_of_sections K args c Hc) as Hw.
  destruct (Hp c Hw) as (c' & E & _ & G).
  exists c'. split; [done|].
  apply distinct_keys_ne in Hk as (? & ? & ? & ? & ? & ?).
  split; [|split; [|split]].
  - rewrite G. unfold writes_of. rewrite Hs.
    destruct (backtesting args), (bool_decide (backtesting_files args ≠ [])),
      (risk args) as [r|]; try destruct (risk_in_range r);
      simpl; decide_writes.
  - rewrite G. unfold writes_of. rewrite Hs.
    destruct (backtesting args), (bool_decide (backtesting_files args ≠ [])),
      (risk args) as [r|]; try destruct (risk_in_range r);
      simpl; decide_writes.
  - by apply (performs_idempotent _ _ c c' Hp Hw).
  - intros Hb key. rewrite G. unfold writes_of. rewrite Hs, Hb.
    destruct (risk args) as [r|]; try destruct (risk_in_range r);
      simpl; decide_writes.
Qed.

(** X10: with backtesting asked for, the backtesting section ends
    enabled, and its data files are the given ones when some are given and
    are left as they were when none is. *)
Theorem backtesting_section_entries K args (c : config_dict) :
  distinct_keys K →
  has_sections K c →
  backtesting args = true →
  ∃ c', update_config_with_args K true args c = (c', None) ∧
    getitem (CONFIG_BACKTESTING K) (CONFIG_ENABLED_OPTION K) c' =
      Some (VBool true) ∧
    getitem (CONFIG_BACKTESTING K) (CONFIG_BACKTESTING_DATA_FILES K) c' =
      if bool_decide (backtesting_files args ≠ [])
      then Some (VStrings (backtesting_files args))
      else getitem (CONFIG_BACKTESTING K) (CONFIG_BACKTESTING_DATA_FILES K) c.
Proof.
  intros Hk Hc Hb.
  destruct (update_config_with_args_performs K args c
              (writes_of_sections K args c Hc)) as (c' & E & _ & G).
  exists c'. split; [done|].
  pose proof Hk as [_ Hfiles].
  apply distinct_keys_ne in Hk as (? & ? & ? & ? & ? & ?).
  split.
  - rewrite G. unfold writes_of. rewrite Hb.
    destruct (bool_decide (backtesting_files args ≠ [])), (simulate args),
      (risk args) as [r|]; try destruct (risk_in_range r);
      simpl; decide_writes.
  - rewrite G. unfold writes_of. rewrite Hb.
    destruct (bool_decide (backtesting_files args ≠ [])), (simulate args),
      (risk args) as [r|]; try destruct (risk_in_range r);
      simpl; decide_writes.
Qed.

Lemma touches_only_skip : touches_only skip [].
Proof. intros c. by split. Qed.

Lemma touches_only_raise e : touches_only (raise e) [].
Proof. intros c. by split. Qed.

Lemma touches_only_setitem section key v :
  touches_only (setitem section key v) [(section, key, v)].
Proof.
  intros c. unfold setitem.
  destruct (c !! section) as [d|] eqn:Hd; simpl; [|by split].
  split.
  - intros sec. destruct (decide (section = sec)) as [<-|Hne].
    + rewrite lookup_insert_eq, Hd. split; eauto.
    + by rewrite lookup_insert_ne.
  - intros sec k Hw. unfold getitem.
    destruct (decide (section = sec)) as [<-|Hne].
    + rewrite lookup_insert_eq, Hd. simpl.
      rewrite lookup_insert_ne; [done|]. intros <-.
      by apply (Hw (section, key, v)); [left|].
    + by rewrite lookup_insert_ne.
Qed.

Lemma touches_only_when (b : bool) s ws :
  touches_only s ws → touches_only (when b s) (if b then ws else []).
Proof. destruct b; [done|]. intros _. apply touches_only_skip. Qed.

Lemma touches_only_then s1 s2 ws1 ws2 :
  touches_only s1 ws1 → touches_only s2 ws2 →
  touches_only (s1 >> s2) (ws1 ++ ws2).
Proof.
  intros H1 H2 c. destruct (H1 c) as [S1 G1]. unfold then_.
  destruct (s1 c) as [c1 [e|]] eqn:E1; simpl in *.
  - split; [done|]. intros sec k Hw. apply G1.
    intros w Hin. apply Hw, elem_of_app. by left.
  - destruct (H2 c1) as [S2 G2]. split.
    + intros sec. by rewrite S2, S1.
    + intros sec k Hw. rewrite G2, G1; [done| |];
        intros w Hin; apply Hw, elem_of_app; [by left|by right].
Qed.

Lemma update_config_with_args_touches_only K importable args :
  touches_only (update_config_with_args K importable args) (writes_of K args).
Proof.
  unfold update_config_with_args, writes_of.
  apply (touches_only_then _ _ []).
  { destruct importable; [apply touches_only_skip|apply touches_only_raise]. }
  apply touches_only_then.
  { apply touches_only_when.
    apply touches_only_then; [apply touches_only_when, touches_only_setitem|].
    apply (touches_only_then _ _ [_]); [apply touches_only_setitem|].
    apply (touches_only_then _ _ [_]); apply touches_only_setitem. }
  apply touches_only_then.
  { apply touches_only_when.
    apply (touches_only_then _ _ [_]); apply touches_only_setitem. }
  destruct (risk args) as [r|]; [|apply touches_only_skip].
  apply touches_only_when, touches_only_setitem.
Qed.

(** X11: whether it raises or not, [update_config_with_args] neither
    adds nor removes a section, and it changes no entry other than the
    enabled flags of the backtesting, trader and simulator sections, the
    data files of the backtesting section and the risk of the trading
    section. *)
Theorem update_config_touches_only_its_entries K importable args
    (c : config_dict) section key :
  (is_Some ((update_config_with_args K importable args c).1 !! section) ↔
   is_Some (c !! section)) ∧
  ((section, key) ∉
     [(CONFIG_BACKTESTING K, CONFIG_BACKTESTING_DATA_FILES K);
      (CONFIG_BACKTESTING K, CONFIG_ENABLED_OPTION K);
      (CONFIG_TRADER K, CONFIG_ENABLED_OPTION K);
      (CONFIG_SIMULATOR K, CONFIG_ENABLED_OPTION K);
      (CONFIG_TRADING K, CONFIG_TRADER_RISK K)] →
   getitem section key (update_config_with_args K importable args c).1 =
   getitem section key c).
Proof.
  destruct (update_config_with_args_touches_only K importable args c)
    as [Hs Hg].
  split; [apply Hs|]. intros Hout. apply Hg. intros w Hw Heq.
  apply Hout. rewrite <- Heq. clear Heq Hout Hg Hs.
  unfold writes_of in Hw.
  rewrite !elem_of_app in Hw.
  destruct (backtesting args), (bool_decide (backtesting_files args ≠ [])),
    (simulate args), (risk args) as [r|]; try destruct (risk_in_range r);
    rewrite ?elem_of_app, ?elem_of_cons, ?elem_of_nil in Hw;
    repeat destruct Hw as [Hw|Hw]; subst; simpl;
    rewrite ?elem_of_cons; try tauto.
Qed.


Lemma update_config_without_overrides_sample :
  update_config_with_args default_keys true
    (StartingArgs false [] false (Some 1.5%float)) ∅ = (∅, None).
Proof.
  apply (update_config_without_overrides default_keys
           (StartingArgs false [] false (Some 1.5%float)) ∅ eq_refl eq_refl).
  intros r [= <-]. reflexivity.
Defined.

Lemma simulate_forces_simulator_sample :
  ∃ c', update_config_with_args default_keys true
          (StartingArgs false [] true None) sample_config = (c', None) ∧
        getitem "trader" "enabled" c' = Some (VBool false) ∧
        getitem "trader-simulator" "enabled" c' = Some (VBool true).
Proof.
  destruct (simulate_forces_simulator default_keys
              (StartingArgs false [] true None) sample_config
              default_keys_distinct sample_config_has_sections eq_refl)
    as (c' & E & Ht & Hs & _).
  exists c'. split; [exact E|]. split; [exact Ht|exact Hs].
Defined.

Lemma backtesting_section_entries_sample :
  ∃ c', update_config_with_args default_keys true
          (StartingArgs true [] false None) sample_config = (c', None) ∧
        getitem "backtesting" "enabled" c' = Some (VBool true) ∧
        getitem "backtesting" "files" c' = None.
Proof.
  destruct (backtesting_section_entries default_keys
              (StartingArgs true [] false None) sample_config
              default_keys_distinct sample_config_has_sections eq_refl)
    as (c' & E & He & Hf).
  exists c'. split; [exact E|]. split; [exact He|exact Hf].
Defined.

(** *** Loading the start-up configuration *)

Section startup_facts.

Variable w : world.

Lemma repairs_app (h1 h2 : history) : repairs (h1 ++ h2) = repairs h1 + repairs h2.
Proof. apply count_where_app. Qed.

Lemma appends_ret {A} (x : A) : appends 0 (ret x).
Proof. intros h. exists []. by rewrite app_nil_r. Qed.

Lemma appends_throw {A} e : appends 0 (throw e : M A).
Proof. intros h. exists []. by rewrite app_nil_r. Qed.

Lemma appends_log r : is_repair (r, Returns) = false → appends 0 (log r).
Proof.
  intros Hr h. exists [(r, Returns)]. split; [done|].
  unfold repairs. simpl. by rewrite Hr.
Qed.

Lemma appends_ask r :
  appends (if is_repair (r, Returns) then 1 else 0) (ask w r).
Proof.
  intros h. exists [(r, w h r)]. split.
  - unfold ask. by destruct (w h r).
  - unfold repairs, is_repair. simpl. destruct r; simpl; lia.
Qed.

Lemma appends_query r : is_repair (r, Returns) = false → appends 0 (query w r).
Proof.
  intros Hr h. exists [(r, w h r)]. split; [done|].
  unfold repairs, is_repair in *. simpl in *. destruct r; simpl; done.
Qed.

(** A computation without repair, followed by anything. *)
Lemma appends_bind {A B} n (m : M A) (k : A → M B) :
  appends n m → (∀ x, appends 0 (k x)) → appends n (bind m k).
Proof.
  intros Hm Hk h. destruct (Hm h) as (seg & E & R). unfold bind.
  destruct (m h) as [[x|e] h'] eqn:Em; simpl in E; subst h'.
  - destruct (Hk x (h ++ seg)) as (seg' & E' & R').
    exists (seg ++ seg'). rewrite E', app_assoc, repairs_app. split; [done|lia].
  - exists seg. done.
Qed.

Lemma appends_try_except {A} (body : M A) handler :
  appends 0 body →
  (∀ e recover, handler e = Some recover → appends 0 recover) →
  appends 0 (try_except body handler).
Proof.
  intros Hb Hh h. destruct (Hb h) as (seg & E & R). unfold try_except.
  destruct (body h) as [[x|e] h'] eqn:Eb; simpl in E; subst h'.
  - by exists seg.
  - destruct (handler e) as [recover|] eqn:Eh; [|by exists seg].
    destruct (Hh e recover Eh (h ++ seg)) as (seg' & E' & R').
    exists (seg ++ seg'). rewrite E', app_assoc, repairs_app. split; [done|lia].
Qed.

Lemma appends__create_configuration : appends 0 (_create_configuration w).
Proof.
  intros h. unfold _create_configuration.
  destruct (appends_bind 0 (ask w Create_configuration)
              (λ _, ret (configurations_built h))
              (appends_ask Create_configuration)
              (λ _, appends_ret _) h) as (seg & E & R).
  by exists seg.
Qed.

Lemma appends__validate_config config : appends 0 (_validate_config w config).
Proof.
  apply appends_try_except.
  - apply (appends_bind 0); [apply (appends_ask (Validate config))|].
    intros _. apply appends_ret.
  - intros e recover He. destruct (is_Exception e); [|done].
    injection He as <-.
    apply (appends_bind 0);
      [apply (appends_ask (Migrate_from_previous_config config))|].
    intros migrated. destruct (truthy migrated); [by apply appends_log|].
    apply (appends_bind 0); [by apply appends_log|]. intros _. apply appends_throw.
Qed.

Lemma appends_guarded_resolution config :
  appends 0 (guarded_resolution w config).
Proof.
  apply appends_try_except.
  - apply (appends_bind 0); [apply (appends_ask (Ensure_profile config))|].
    intros _. apply appends__validate_config.
  - intros e recover He.
    assert (recover = (let! exists_dir := query w Isdir_tentacles_path in
                       if exists_dir then throw e else ret ())) as ->
      by (destruct e; congruence).
    apply (appends_bind 0); [by apply appends_query|].
    intros b. destruct b; [apply appends_throw|apply appends_ret].
Qed.

(** The repair selects the default profile once. *)
Lemma appends__repair_with_default_profile config :
  appends 1 (_repair_with_default_profile w config).
Proof.
  intros h. unfold _repair_with_default_profile, bind, log.
  destruct (appends_bind 1 (ask w (Set_default_profile config))
              (λ _, ask w (Load_profiles_if_possible_and_necessary config) ;;; ret ())
              (appends_ask (Set_default_profile config))) with (h := h ++ [(Log_error "MEV can't start without a valid profile configuration. Selecting default profile ...", Returns)])
    as (seg & E & R).
  { intros _. apply (appends_bind 0);
      [apply (appends_ask (Load_profiles_if_possible_and_necessary config))|].
    intros _. apply appends_ret. }
  exists ((Log_error "MEV can't start without a valid profile configuration. Selecting default profile ...", Returns) :: seg).
  split; [|done].
  unfold bind in E. rewrite E. by rewrite <- app_assoc.
Qed.

Lemma appends_startup_probe : appends 0 (startup_probe w).
Proof.
  apply (appends_bind 0); [by apply appends_log|]. intros _.
  apply (appends_bind 0); [apply appends__create_configuration|]. intros config.
  apply (appends_bind 0);
    [apply (appends_ask (Is_config_file_empty_or_missing config))|].
  intros a. apply appends_ret.
Qed.

(** What follows the first read when it raises [NoProfileError]. *)
Lemma _read_config_no_profile config h :
  w h (Read config true true) = Raises NoProfileError →
  _read_config w config h =
  (_repair_with_default_profile w config ;;;
   let! config' := _create_configuration w in
   ask w (Read config' false true) ;;; ret ())
    (h ++ [(Read config true true, Raises NoProfileError)]).
Proof.
  intros Hr. unfold _read_config, try_except.
  unfold bind at 1. unfold ask at 1. by rewrite Hr.
Qed.

Lemma _read_config_repairs config h :
  w h (Read config true true) = Raises NoProfileError →
  ∃ seg, (_read_config w config h).2 = h ++ seg ∧ repairs seg = 1.
Proof.
  intros Hr. rewrite (_read_config_no_profile config h Hr).
  destruct (appends_bind 1 (_repair_with_default_profile w config)
              (λ _, let! config' := _create_configuration w in
                    ask w (Read config' false true) ;;; ret ())
              (appends__repair_with_default_profile config))
    with (h := h ++ [(Read config true true, Raises NoProfileError)])
    as (seg & E & R).
  { intros _. apply (appends_bind 0); [apply appends__create_configuration|].
    intros config'. apply (appends_bind 0);
      [apply (appends_ask (Read config' false true))|].
    intros _. apply appends_ret. }
  exists ((Read config true true, Raises NoProfileError) :: seg).
  rewrite E. by rewrite <- app_assoc.
Qed.

Lemma bind_inl {A B} (m : M A) (k : A → M B) h y h' :
  bind m k h = (inl y, h') →
  ∃ x h1, m h = (inl x, h1) ∧ k x h1 = (inl y, h').
Proof.
  unfold bind. destruct (m h) as [[x|e] h1]; [|done].
  intros H. by exists x, h1.
Qed.

Lemma ask_inl r h a h' :
  ask w r h = (inl a, h') → h' = h ++ [(r, a)] ∧ ∀ e, a ≠ Raises e.
Proof. unfold ask. destruct (w h r); by intros [= <- <-]. Qed.

Lemma configurations_built_app (h1 h2 : history) :
  configurations_built (h1 ++ h2) =
  configurations_built h1 + configurations_built h2.
Proof. apply count_where_app. Qed.

Lemma startup_probe_inl config first h1 :
  startup_probe w [] = (inl (config, first), h1) →
  config = 0 ∧ configurations_built h1 = 1.
Proof.
  unfold startup_probe. intros H.
  apply bind_inl in H as ([] & h0 & Hl & H). injection Hl as <-.
  apply bind_inl in H as (config' & hc & Hc & H).
  unfold _create_configuration in Hc.
  apply bind_inl in Hc as (a & hc' & Ha & Hc). injection Hc as <- <-.
  apply bind_inl in H as (a' & hm & Hm & H). injection H as <- <- <-.
  apply ask_inl in Hm as [-> _]. apply ask_inl in Ha as [-> Hnr].
  split; [done|].
  rewrite !configurations_built_app.
  destruct a as [| |e]; [done..|]. by destruct (Hnr e).
Qed.

(** The calls of a repair that ran to its end. *)
Lemma _read_config_repair_calls config h h2 :
  w h (Read config true true) = Raises NoProfileError →
  _read_config w config h = (inl (), h2) →
  requests (drop (length h) h2) =
    [Read config true true;
     Log_error "MEV can't start without a valid profile configuration. Selecting default profile ...";
     Set_default_profile config;
     Load_profiles_if_possible_and_necessary config;
     Create_configuration;
     Read (configurations_built h) false true].
Proof.
  intros Hr H. rewrite (_read_config_no_profile config h Hr) in H.
  apply bind_inl in H as ([] & ha & Hrep & H).
  unfold _repair_with_default_profile in Hrep.
  apply bind_inl in Hrep as ([] & hl & Hl & Hrep). injection Hl as <-.
  apply bind_inl in Hrep as (a1 & hs & Hs & Hrep). apply ask_inl in Hs as [-> _].
  apply bind_inl in Hrep as (a2 & hp & Hp & Hrep). apply ask_inl in Hp as [-> _].
  injection Hrep as <-.
  apply bind_inl in H as (config' & hc & Hc & H).
  unfold _create_configuration in Hc.
  apply bind_inl in Hc as (a3 & hc' & Ha & Hc). apply ask_inl in Ha as [-> _].
  injection Hc as <- <-.
  apply bind_inl in H as (a4 & hr & Hread & H). apply ask_inl in Hread as [-> _].
  injection H as <-.
  rewrite <- !app_assoc. rewrite drop_app_length. simpl.
  do 5 f_equal.
  rewrite configurations_built_app. unfold configurations_built at 2. simpl.
  by rewrite Nat.add_0_r.
Qed.

(** An error of profile resolution or validation leaves the guarded
    statement only if the tentacles folder was found. *)
Lemma guarded_resolution_outcome config h :
  match (guarded_resolution w config h).1 with
  | inl _ => True
  | inr e =>
      e = NoProfileError ∨ e = ConfigError →
      tentacles_found (guarded_resolution w config h).2
  end.
Proof.
  unfold guarded_resolution, try_except.
  destruct (resolve_and_validate w config h) as [[[]|e] h'] eqn:E; [done|].
  assert (Hfound : ∀ e',
    match (bind (query w Isdir_tentacles_path)
             (λ exists_dir : bool, if exists_dir then throw e' else ret ()) h').1
    with
    | inl _ => True
    | inr _ =>
        tentacles_found
          (bind (query w Isdir_tentacles_path)
             (λ exists_dir : bool, if exists_dir then throw e' else ret ()) h').2
    end).
  { intros e'. unfold bind, query. simpl.
    destruct (truthy (w h' Isdir_tentacles_path)) eqn:T; simpl; [|done].
    exists (w h' Isdir_tentacles_path). split; [|done].
    apply elem_of_app. right. by left. }
  destruct e; simpl; try (intros [|]; discriminate).
  - specialize (Hfound NoProfileError).
    destruct (bind _ _ h') as [[|] ?]; simpl in *; [done|]. by intros _.
  - specialize (Hfound ConfigError).
    destruct (bind _ _ h') as [[|] ?]; simpl in *; [done|]. by intros _.
Qed.

(** Profile resolution comes first, on the object it is given, and
    validation of the same object follows when it returns. *)
Lemma guarded_resolution_head config h :
  ∃ seg,
    (guarded_resolution w config h).2 =
    h ++ (Ensure_profile config, w h (Ensure_profile config)) :: seg ∧
    ((∀ e, w h (Ensure_profile config) ≠ Raises e) →
     ∃ a seg', seg = (Validate config, a) :: seg').
Proof.
  unfold guarded_resolution, resolve_and_validate, try_except.
  unfold bind at 1. unfold ask at 1.
  set (a := w h (Ensure_profile config)).
  set (h' := h ++ [(Ensure_profile config, a)]).
  assert (Hv : ∃ a' seg',
            (_validate_config w config h').2 = h' ++ (Validate config, a') :: seg').
  { unfold _validate_config, try_except. unfold bind at 1. unfold ask at 1.
    set (a' := w h' (Validate config)). exists a'.
    assert (Hm : ∀ e0, ∃ seg',
      ((let! migrated := ask w (Migrate_from_previous_config config) in
        if truthy migrated
        then log (Log_info "Your configuration has been migrated into the newest format.")
        else (log (Log_error "MEV can't repair your config.json file: invalid format: ") ;;;
              throw ConfigError)) (h' ++ [(Validate config, Raises e0)])).2 =
      h' ++ (Validate config, Raises e0) :: seg').
    { intros e0. unfold bind, ask, log, throw.
      destruct (w _ (Migrate_from_previous_config config)) as [|[]|e1]; simpl;
        eexists; rewrite <- ?app_assoc; simpl; reflexivity. }
    destruct a' as [|b|e0]; simpl; [by exists []..|].
    destruct (is_Exception e0); [apply Hm|by exists []]. }
  assert (Hq : ∀ (e : exn) (hq : history), ∃ segq,
            ((let! exists_dir := query w Isdir_tentacles_path in
              if exists_dir then throw e else ret ()) hq).2 = hq ++ segq).
  { intros e hq. unfold bind, query, throw, ret. simpl.
    destruct (truthy (w hq Isdir_tentacles_path)); by eexists. }
  assert (Hrest : (∀ e, a ≠ Raises e) → ∃ seg,
            (match _validate_config w config h' with
             | (inl x, h3) => (inl x, h3)
             | (inr e, h3) =>
                 match
                   match e with
                   | NoProfileError | ConfigError =>
                       Some (let! exists_dir := query w Isdir_tentacles_path in
                             if exists_dir then throw e else ret ())
                   | _ => None
                   end
                 with
                 | Some recover => recover h3
                 | None => (inr e, h3)
                 end
             end).2 = h ++ (Ensure_profile config, a) :: seg ∧
            ∃ a' seg', seg = (Validate config, a') :: seg').
  { intros _. destruct Hv as (a' & seg' & Hv).
    destruct (_validate_config w config h') as [[x|e] h3]; simpl in Hv; subst h3.
    - exists ((Validate config, a') :: seg'). unfold h'.
      rewrite <- app_assoc. simpl. split; [done|]. by exists a', seg'.
    - destruct e;
        try (exists ((Validate config, a') :: seg'); unfold h';
             rewrite <- app_assoc; simpl; split; [done|]; by exists a', seg').
      + destruct (Hq NoProfileError (h' ++ (Validate config, a') :: seg'))
          as (segq & ->).
        exists ((Validate config, a') :: seg' ++ segq). unfold h'.
        rewrite <- !app_assoc. simpl. split; [done|]. by eexists _, _.
      + destruct (Hq ConfigError (h' ++ (Validate config, a') :: seg'))
          as (segq & ->).
        exists ((Validate config, a') :: seg' ++ segq). unfold h'.
        rewrite <- !app_assoc. simpl. split; [done|]. by eexists _, _. }
  destruct a as [|b|e] eqn:Ea.
  1, 2: destruct Hrest as (seg & Hs & Hval); [done|];
    exists seg; split; [exact Hs|by intros _].
  clear Hrest Hv.
  destruct e; simpl.
  1: destruct (Hq NoProfileError h') as (segq & Hs).
  2: destruct (Hq ConfigError h') as (segq & Hs).
  1, 2: exists segq; rewrite Hs; unfold h'; rewrite <- app_assoc.
  3-6: exists []; unfold h'.
  all: split; [done|]; intros Hne; exfalso; by eapply Hne.
Qed.

(** C9: on a start that is not the first one, once the configuration was
    read, a [NoProfileError] or [ConfigError] raised by profile resolution
    or validation leaves [_create_startup_config] exactly when the
    tentacles folder exists; otherwise the error is dropped and the
    configuration object that was read is returned. *)
Theorem profile_errors_gated_by_tentacles config h1 h2 h3 e :
  startup_probe w [] = (inl (config, false), h1) →
  _read_config w config h1 = (inl (), h2) →
  resolve_and_validate w config h2 = (inr e, h3) →
  e = NoProfileError ∨ e = ConfigError →
  _create_startup_config w [] =
  (if truthy (w h3 Isdir_tentacles_path) then inr e else inl (config, false),
   h3 ++ [(Isdir_tentacles_path, w h3 Isdir_tentacles_path)]).
Proof.
  intros Hp Hr Hv He.
  unfold _create_startup_config. unfold bind at 1. rewrite Hp. simpl.
  unfold bind at 1. rewrite Hr.
  unfold bind at 1. unfold guarded_resolution, try_except. rewrite Hv.
  destruct He as [-> | ->]; unfold bind, query; simpl;
    by destruct (truthy _).
Qed.

(** *** How many calls a load can make *)

Lemma calls_where_app k (h1 h2 : history) :
  calls_where k (h1 ++ h2) = calls_where k h1 + calls_where k h2.
Proof. apply count_where_app. Qed.

Lemma at_most_mono {A} k n n' (m : M A) :
  at_most k n m → n ≤ n' → at_most k n' m.
Proof.
  intros Hm Hle h. destruct (Hm h) as (seg & E & Hc).
  exists seg. split; [done|lia].
Qed.

Lemma at_most_ret {A} k (x : A) : at_most k 0 (ret x).
Proof. intros h. exists []. by rewrite app_nil_r. Qed.

Lemma at_most_throw {A} k e : at_most k 0 (throw e : M A).
Proof. intros h. exists []. by rewrite app_nil_r. Qed.

Lemma at_most_ask k r : at_most k (if k r then 1 else 0) (ask w r).
Proof.
  intros h. exists [(r, w h r)]. split.
  - unfold ask. by destruct (w h r).
  - unfold calls_where. simpl. destruct (k r); lia.
Qed.

Lemma at_most_query k r : at_most k (if k r then 1 else 0) (query w r).
Proof.
  intros h. exists [(r, w h r)]. split; [done|].
  unfold calls_where. simpl. destruct (k r); lia.
Qed.

Lemma at_most_log k r : at_most k (if k r then 1 else 0) (log r).
Proof.
  intros h. exists [(r, Returns)]. split; [done|].
  unfold calls_where. simpl. destruct (k r); lia.
Qed.

Lemma at_most_bind {A B} k n1 n2 (m : M A) (f : A → M B) :
  at_most k n1 m → (∀ x, at_most k n2 (f x)) → at_most k (n1 + n2) (bind m f).
Proof.
  intros Hm Hf h. destruct (Hm h) as (seg & E & Hc). unfold bind.
  destruct (m h) as [[x|e] h'] eqn:Em; simpl in E; subst h'.
  - destruct (Hf x (h ++ seg)) as (seg' & E' & Hc').
    exists (seg ++ seg'). rewrite E', app_assoc, calls_where_app.
    split; [done|lia].
  - exists seg. split; [done|lia].
Qed.

Lemma at_most_try_except {A} k n1 n2 (body : M A) handler :
  at_most k n1 body →
  (∀ e recover, handler e = Some recover → at_most k n2 recover) →
  at_most k (n1 + n2) (try_except body handler).
Proof.
  intros Hb Hh h. destruct (Hb h) as (seg & E & Hc). unfold try_except.
  destruct (body h) as [[x|e] h'] eqn:Eb; simpl in E; subst h'.
  - exists seg. split; [done|lia].
  - destruct (handler e) as [recover|] eqn:Eh.
    + destruct (Hh e recover Eh (h ++ seg)) as (seg' & E' & Hc').
      exists (seg ++ seg'). rewrite E', app_assoc, calls_where_app.
      split; [done|lia].
    + exists seg. split; [done|lia].
Qed.

Lemma at_most_if {A} k n1 n2 (b : bool) (m1 m2 : M A) :
  at_most k n1 m1 → at_most k n2 m2 →
  at_most k (Nat.max n1 n2) (if b then m1 else m2).
Proof.
  intros H1 H2. destruct b; [apply (at_most_mono k n1)|apply (at_most_mono k n2)];
    try done; lia.
Qed.

Lemma at_most__create_configuration k :
  at_most k (if k Create_configuration then 1 else 0) (_create_configuration w).
Proof.
  intros h. unfold _create_configuration.
  destruct (at_most_bind k _ 0 (ask w Create_configuration)
              (λ _, ret (configurations_built h))
              (at_most_ask k Create_configuration)
              (λ _, at_most_ret k _) h) as (seg & E & Hc).
  exists seg. split; [done|lia].
Qed.

(** Bound the calls of a computation made of the pieces above. *)
Ltac bound_calls :=
  lazymatch goal with
  | |- at_most _ _ (ret _) => apply at_most_ret
  | |- at_most _ _ (throw _) => apply at_most_throw
  | |- at_most _ _ (ask _ _) => apply at_most_ask
  | |- at_most _ _ (query _ _) => apply at_most_query
  | |- at_most _ _ (log _) => apply at_most_log
  | |- at_most _ _ (_create_configuration _) =>
      apply at_most__create_configuration
  | |- at_most _ _ (bind _ _) =>
      eapply at_most_bind; [bound_calls | intros ?; bound_calls]
  | |- at_most _ _ (if _ then _ else _) =>
      eapply at_most_if; bound_calls
  end.

Lemma at_most__repair_with_default_profile k config :
  at_most k
    ((if k (Log_error "MEV can't start without a valid profile configuration. Selecting default profile ...") then 1 else 0) +
     ((if k (Set_default_profile config) then 1 else 0) +
      ((if k (Load_profiles_if_possible_and_necessary config) then 1 else 0) + 0)))
    (_repair_with_default_profile w config).
Proof. unfold _repair_with_default_profile. bound_calls. Qed.

(** The same, leaving the bound to be found. *)
Ltac bound_found :=
  cbv zeta;
  lazymatch goal with
  | |- at_most _ _ (ret _) => apply at_most_ret
  | |- at_most _ _ (throw _) => apply at_most_throw
  | |- at_most _ _ (ask _ _) =>
      eapply at_most_mono; [apply at_most_ask | cbv; apply le_n]
  | |- at_most _ _ (query _ _) =>
      eapply at_most_mono; [apply at_most_query | cbv; apply le_n]
  | |- at_most _ _ (log _) =>
      eapply at_most_mono; [apply at_most_log | cbv; apply le_n]
  | |- at_most _ _ (_create_configuration _) =>
      eapply at_most_mono;
        [apply at_most__create_configuration | cbv; apply le_n]
  | |- at_most _ _ (bind _ _) =>
      eapply at_most_bind; [bound_found | intros ?; bound_found]
  | |- at_most _ _ (if _ then _ else _) =>
      eapply at_most_if; bound_found
  | |- at_most _ _ (try_except _ _) =>
      eapply at_most_try_except;
        [ bound_found
        | intros [] ? Hclause; cbn in Hclause; simplify_eq;
          first [ bound_found
                | eapply at_most_mono; [apply at_most_throw | cbv; lia] ] ]
  end.

Lemma startup_call_bound κ :
  ∃ n, at_most (λ r, bool_decide (kind_of r = κ)) n (_create_startup_config w) ∧
       n ≤ call_limit κ.
Proof.
  unfold _create_startup_config, startup_probe, _read_config,
    guarded_resolution, resolve_and_validate, _validate_config,
    _repair_with_default_profile.
  destruct κ; eexists; (split; [bound_found | cbv; lia]).
Qed.

Lemma startup_total_bound :
  ∃ n, at_most (λ _, true) n (_create_startup_config w) ∧ n ≤ 14.
Proof.
  unfold _create_startup_config, startup_probe, _read_config,
    guarded_resolution, resolve_and_validate, _validate_config,
    _repair_with_default_profile.
  eexists; (split; [bound_found | cbv; lia]).
Qed.

(** X12: whatever the files, profiles and tentacles are, loading the
    start-up configuration makes at most fourteen calls: a configuration
    object is built at most twice and read at most twice, at most three
    lines are logged, and every other call (the test of the configuration
    file, the default configuration, the selection of the default profile,
    the loading of profiles, profile resolution, validation, migration,
    the test of the tentacles folder) is made at most once. *)
Theorem startup_calls_bounded :
  length (_create_startup_config w []).2 ≤ 14 ∧
  ∀ κ, calls_where (λ r, bool_decide (kind_of r = κ))
         (_create_startup_config w []).2 ≤ call_limit κ.
Proof.
  split.
  - destruct startup_total_bound as (n & Hn & Hle).
    destruct (Hn []) as (seg & -> & Hc). simpl.
    assert (calls_where (λ _, true) seg = length seg) as <-; [|lia].
    clear. unfold calls_where. induction seg as [|p seg IH]; simpl; [done|].
    by rewrite IH.
  - intros κ. destruct (startup_call_bound κ) as (n & Hn & Hle).
    destruct (Hn []) as (seg & -> & Hc). simpl. lia.
Qed.

(** *** Which configuration object the calls are about *)

Lemma issues_ret {A} P (x : A) : issues P (ret x).
Proof. intros h. exists []. by rewrite app_nil_r. Qed.

Lemma issues_throw {A} P e : issues P (throw e : M A).
Proof. intros h. exists []. by rewrite app_nil_r. Qed.

Lemma issues_ask (P : request → Prop) r : P r → issues P (ask w r).
Proof.
  intros Hr h. exists [(r, w h r)]. split.
  - unfold ask. by destruct (w h r).
  - by apply Forall_singleton.
Qed.

Lemma issues_query (P : request → Prop) r : P r → issues P (query w r).
Proof. intros Hr h. exists [(r, w h r)]. split; [done|]. by apply Forall_singleton. Qed.

Lemma issues_log (P : request → Prop) r : P r → issues P (log r).
Proof. intros Hr h. exists [(r, Returns)]. split; [done|]. by apply Forall_singleton. Qed.

Lemma issues_bind {A B} P (m : M A) (f : A → M B) :
  issues P m → (∀ x, issues P (f x)) → issues P (bind m f).
Proof.
  intros Hm Hf h. destruct (Hm h) as (seg & E & Hc). unfold bind.
  destruct (m h) as [[x|e] h'] eqn:Em; simpl in E; subst h'.
  - destruct (Hf x (h ++ seg)) as (seg' & E' & Hc').
    exists (seg ++ seg'). rewrite E', app_assoc. split; [done|].
    by apply Forall_app.
  - by exists seg.
Qed.

Lemma issues_try_except {A} P (body : M A) handler :
  issues P body →
  (∀ e recover, handler e = Some recover → issues P recover) →
  issues P (try_except body handler).
Proof.
  intros Hb Hh h. destruct (Hb h) as (seg & E & Hc). unfold try_except.
  destruct (body h) as [[x|e] h'] eqn:Eb; simpl in E; subst h'.
  - by exists seg.
  - destruct (handler e) as [recover|] eqn:Eh; [|by exists seg].
    destruct (Hh e recover Eh (h ++ seg)) as (seg' & E' & Hc').
    exists (seg ++ seg'). rewrite E', app_assoc. split; [done|].
    by apply Forall_app.
Qed.

Lemma issues__create_configuration (P : request → Prop) :
  P Create_configuration → issues P (_create_configuration w).
Proof.
  intros HP h. unfold _create_configuration.
  destruct (issues_bind P (ask w Create_configuration)
              (λ _, ret (configurations_built h))
              (issues_ask P _ HP) (λ _, issues_ret P _) h) as (seg & E & Hc).
  by exists seg.
Qed.

(** Check that a computation made of the pieces above only issues calls
    that satisfy the predicate. *)
Ltac check_calls :=
  cbv zeta;
  lazymatch goal with
  | |- issues _ (ret _) => apply issues_ret
  | |- issues _ (throw _) => apply issues_throw
  | |- issues _ (ask _ _) => apply issues_ask; simpl; auto
  | |- issues _ (query _ _) => apply issues_query; simpl; auto
  | |- issues _ (log _) => apply issues_log; simpl; auto
  | |- issues _ (_create_configuration _) =>
      apply issues__create_configuration; simpl; auto
  | |- issues _ (bind _ _) =>
      apply issues_bind; [check_calls | intros ?; check_calls]
  | |- issues _ (if ?b then _ else _) => destruct b; check_calls
  | |- issues _ (try_except _ _) =>
      apply issues_try_except;
        [check_calls
        | intros [] ? Hclause; cbn in Hclause; simplify_eq; check_calls]
  end.

Lemma issues__read_config config :
  issues (concerns config) (_read_config w config).
Proof.
  unfold _read_config, _repair_with_default_profile. check_calls.
Qed.

Lemma issues_guarded_resolution config :
  issues (concerns config) (guarded_resolution w config).
Proof.
  unfold guarded_resolution, resolve_and_validate, _validate_config.
  check_calls.
Qed.

(** What [_create_startup_config] does once the configuration file was
    examined. *)
Lemma _create_startup_config_after_probe :
  _create_startup_config w [] =
  match startup_probe w [] with
  | (inl (config, first), h1) =>
      (if first
       then
         log (Log_info "No configuration found creating default configuration...") ;;;
         ask w Init_config ;;;
         ask w (Read config false false) ;;;
         ret (config, first)
       else
         _read_config w config ;;;
         guarded_resolution w config ;;;
         ret (config, first)) h1
  | (inr e, h1) => (inr e, h1)
  end.
Proof.
  unfold _create_startup_config. unfold bind at 1.
  by destruct (startup_probe w []) as [[[config first]|e] h1].
Qed.

Lemma startup_probe_concerns :
  Forall (λ p, concerns 0 p.1) (startup_probe w []).2.
Proof.
  unfold startup_probe, bind, log, _create_configuration, bind, ask. simpl.
  destruct (w _ Create_configuration); simpl;
    try destruct (w _ (Is_config_file_empty_or_missing _)); simpl;
    repeat first
      [ apply Forall_nil_2
      | apply Forall_cons_2;
          [simpl; first [left; reflexivity | right; reflexivity]|] ].
Qed.

(** X13: the configuration object built by the repair is only ever read
    (without raising, filling the missing fields): every other call of the
    load that is about a configuration object, be it the selection of the
    default profile, the loading of profiles, profile resolution,
    validation or migration, is about the object built first, and this is
    the object that is returned. *)
Theorem repaired_object_is_dropped :
  Forall (λ p, concerns 0 p.1) (_create_startup_config w []).2 ∧
  (∀ config first,
     (_create_startup_config w []).1 = inl (config, first) → config = 0).
Proof.
  rewrite _create_startup_config_after_probe.
  pose proof startup_probe_concerns as Hh1.
  destruct (startup_probe w []) as [[[config first]|e] h1] eqn:Hp;
    simpl in Hh1; [|by split].
  destruct (startup_probe_inl _ _ _ Hp) as [-> _].
  split.
  - assert (Hi : issues (concerns 0)
                   (if first
                    then
                      log (Log_info "No configuration found creating default configuration...") ;;;
                      ask w Init_config ;;;
                      ask w (Read 0 false false) ;;;
                      ret (0, first)
                    else
                      _read_config w 0 ;;;
                      guarded_resolution w 0 ;;;
                      ret (0, first))).
    { destruct first; [check_calls|].
      apply issues_bind; [apply issues__read_config|]. intros _.
      apply issues_bind; [apply issues_guarded_resolution|]. intros _.
      apply issues_ret. }
    destruct (Hi h1) as (seg & -> & Hseg). by apply Forall_app.
  - intros config first' Hres. destruct first.
    + destruct (bind _ _ h1) as [[[c f]|e] h'] eqn:E; simpl in Hres; [|done].
      apply bind_inl in E as (? & ? & _ & E).
      apply bind_inl in E as (? & ? & _ & E).
      apply bind_inl in E as (? & ? & _ & E).
      unfold ret in E. congruence.
    + destruct (bind _ _ h1) as [[[c f]|e] h'] eqn:E; simpl in Hres; [|done].
      apply bind_inl in E as (? & ? & _ & E).
      apply bind_inl in E as (? & ? & _ & E).
      unfold ret in E. congruence.
Qed.

(** *** The repair and what follows it *)

Lemma issues_about_guarded_resolution config :
  issues (about config) (guarded_resolution w config).
Proof.
  unfold about, guarded_resolution, resolve_and_validate, _validate_config.
  check_calls.
Qed.

(** The guarded statement returns when profile resolution and validation
    returned, or when their error was dropped for want of a tentacles
    folder. *)
Lemma guarded_resolution_returns config h :
  (guarded_resolution w config h).1 = inl () →
  resolved_on config (guarded_resolution w config h).2 ∨
  tentacles_missing (guarded_resolution w config h).2.
Proof.
  unfold guarded_resolution, try_except.
  destruct (resolve_and_validate w config h) as [[[]|e] h'] eqn:E; simpl.
  - intros _. left. unfold resolve_and_validate in E.
    apply bind_inl in E as (a & ha & Ha & Hv). apply ask_inl in Ha as [-> Hnr].
    destruct (appends__validate_config config
                (h ++ [(Ensure_profile config, a)])) as (seg & Hs & _).
    rewrite Hv in Hs. simpl in Hs. subst h'.
    exists a. split; [|done]. rewrite !elem_of_app. left. right. by left.
  - destruct e; simpl; try done.
    all: unfold bind, query, throw, ret; simpl.
    all: destruct (truthy (w h' Isdir_tentacles_path)) eqn:T; simpl; [done|].
    all: intros _; right; exists (w h' Isdir_tentacles_path).
    all: split; [|done]; apply elem_of_app; right; by left.
Qed.

(** C3 (amended): when the first read of the configuration raises
    [NoProfileError], loading makes exactly one repair attempt, whatever
    happens next. When the repair runs to its end, it selected the default
    profile, loaded the profiles, built a fresh configuration object and
    read it without raising. Profile resolution comes next and validation
    after it, both on the configuration object loading started with, and
    no later call is about the fresh object. Loading then returns the
    object it started with, or fails: it returns with the profile resolved
    unless the tentacles folder was not found, and it fails with
    [NoProfileError] or [ConfigError] only if the tentacles folder
    exists. *)
Theorem single_repair_attempt config h1 :
  startup_probe w [] = (inl (config, false), h1) →
  w h1 (Read config true true) = Raises NoProfileError →
  repairs (_create_startup_config w []).2 = 1 ∧
  (∀ h2, _read_config w config h1 = (inl (), h2) →
     (∃ fresh, fresh ≠ config ∧
        requests (drop (length h1) h2) =
          [Read config true true;
           Log_error "MEV can't start without a valid profile configuration. Selecting default profile ...";
           Set_default_profile config;
           Load_profiles_if_possible_and_necessary config;
           Create_configuration;
           Read fresh false true]) ∧
     (∃ rest,
        requests (drop (length h2) (_create_startup_config w []).2) =
          Ensure_profile config :: rest ∧
        Forall (about config) rest ∧
        ((∀ e, w h2 (Ensure_profile config) ≠ Raises e) →
         ∃ rest', rest = Validate config :: rest')) ∧
     match (_create_startup_config w []).1 with
     | inl result =>
         result = (config, false) ∧
         (resolved_on config (_create_startup_config w []).2 ∨
          tentacles_missing (_create_startup_config w []).2)
     | inr e =>
         e = NoProfileError ∨ e = ConfigError →
         tentacles_found (_create_startup_config w []).2
     end).
Proof.
  intros Hp Hfirst.
  destruct (startup_probe_inl _ _ _ Hp) as [-> Hbuilt].
  destruct (appends_startup_probe []) as (seg0 & E0 & R0).
  rewrite Hp in E0. simpl in E0. subst h1.
  destruct (_read_config_repairs 0 seg0 Hfirst) as (seg1 & E1 & R1).
  assert (Hunfold : _create_startup_config w [] =
            match _read_config w 0 seg0 with
            | (inl _, h2) =>
                match guarded_resolution w 0 h2 with
                | (inl _, h3) => (inl (0, false), h3)
                | (inr e, h3) => (inr e, h3)
                end
            | (inr e, h2) => (inr e, h2)
            end).
  { unfold _create_startup_config. unfold bind at 1. rewrite Hp. simpl.
    unfold bind. destruct (_read_config w 0 seg0) as [[[]|e] h2]; [|done].
    by destruct (guarded_resolution w 0 h2) as [[[]|e] h3]. }
  split.
  - rewrite Hunfold.
    destruct (_read_config w 0 seg0) as [[[]|e] h2]; simpl in E1; subst h2.
    + destruct (appends_guarded_resolution 0 (seg0 ++ seg1)) as (seg2 & E2 & R2).
      destruct (guarded_resolution w 0 (seg0 ++ seg1)) as [[[]|e] h3];
        simpl in E2; subst h3; simpl; rewrite !repairs_app; lia.
    + simpl. rewrite repairs_app. lia.
  - intros h2 Hread.
    assert (Htrace : (_create_startup_config w []).2 =
                     (guarded_resolution w 0 h2).2).
    { rewrite Hunfold, Hread.
      by destruct (guarded_resolution w 0 h2) as [[[]|e] h3]. }
    split; [|split].
    + exists (configurations_built seg0). split; [lia|].
      by apply _read_config_repair_calls.
    + destruct (guarded_resolution_head 0 h2) as (seg & Hs & Hval).
      destruct (issues_about_guarded_resolution 0 h2) as (seg' & Hs' & Hall).
      rewrite Hs in Hs'. apply app_inv_head in Hs' as <-.
      apply Forall_cons in Hall as [_ Hall].
      exists (requests seg). rewrite Htrace, Hs, drop_app_length.
      split; [done|]. split.
      * unfold requests. by apply Forall_fmap.
      * intros Hne. destruct (Hval Hne) as (a & rest' & ->). by eexists.
    + rewrite Htrace. rewrite Hunfold, Hread.
      pose proof (guarded_resolution_outcome 0 h2) as Hout.
      pose proof (guarded_resolution_returns 0 h2) as Hret.
      destruct (guarded_resolution w 0 h2) as [[[]|e] h3]; simpl in *;
        [|done].
      split; [done|]. by apply Hret.
Qed.

(** *** The first start and the first read *)


Lemma guarded_resolution_builds_nothing config :
  at_most (λ r, bool_decide (kind_of r = K_create_configuration)) 0
    (guarded_resolution w config).
Proof.
  unfold guarded_resolution, resolve_and_validate, _validate_config.
  eapply at_most_mono; [bound_found | cbv; lia].
Qed.

Lemma configurations_built_le (h : history) :
  configurations_built h ≤
  calls_where (λ r, bool_decide (kind_of r = K_create_configuration)) h.
Proof.
  unfold configurations_built, calls_where.
  induction h as [|[r a] h IH]; simpl; [done|].
  destruct r, a; simpl; lia.
Qed.

(** X15: on a start that is not the first one, the first read decides of
    the repair. When it raises an [Exception] other than [NoProfileError],
    loading fails with [ConfigError] at once and calls nothing else; an
    error outside [Exception] (an interrupt, an exit) is not caught and
    leaves loading as it is, at once as well; when the read returns, there
    is no repair and no second configuration object. *)
Theorem first_read_decides config h1 :
  startup_probe w [] = (inl (config, false), h1) →
  (∀ e, w h1 (Read config true true) = Raises e → e ≠ NoProfileError →
        _create_startup_config w [] =
        (inr (if is_Exception e then ConfigError else e),
         h1 ++ [(Read config true true, Raises e)])) ∧
  ((∀ e, w h1 (Read config true true) ≠ Raises e) →
   repairs (_create_startup_config w []).2 = 0 ∧
   configurations_built (_create_startup_config w []).2 = 1).
Proof.
  intros Hp. rewrite _create_startup_config_after_probe, Hp. split.
  - intros e He Hne. unfold bind at 1. unfold _read_config, try_except.
    unfold bind at 1. unfold ask. rewrite He. by destruct e.
  - intros Hret.
    destruct (startup_probe_inl _ _ _ Hp) as [_ Hbuilt].
    destruct (appends_startup_probe []) as (seg0 & E0 & R0).
    rewrite Hp in E0. simpl in E0. subst h1.
    assert (Hread : _read_config w config seg0 =
              (inl (), seg0 ++ [(Read config true true,
                                 w seg0 (Read config true true))])).
    { unfold _read_config, try_except. unfold bind at 1. unfold ask.
      destruct (w seg0 (Read config true true)) as [|b|e]; try done.
      by destruct (Hret e). }
    set (h2 := seg0 ++ _) in Hread.
    assert (Hrun : (_read_config w config ;;;
                    guarded_resolution w config ;;; ret (config, false)) seg0 =
              match guarded_resolution w config h2 with
              | (inl _, h3) => (inl (config, false), h3)
              | (inr e, h3) => (inr e, h3)
              end).
    { unfold bind. rewrite Hread.
      by destruct (guarded_resolution w config h2) as [[[]|e] h3]. }
    rewrite Hrun. clear Hrun.
    destruct (appends_guarded_resolution config h2) as (seg2 & E2 & R2).
    destruct (guarded_resolution_builds_nothing config h2) as (seg3 & E3 & R3).
    rewrite E2 in E3. apply app_inv_head in E3 as <-.
    pose proof (configurations_built_le seg2) as Hle.
    assert (Hfinal : ∀ r : (config_obj * bool) + exn,
              repairs (r, h2 ++ seg2).2 = 0 ∧
              configurations_built (r, h2 ++ seg2).2 = 1).
    { intros r. simpl. unfold h2.
      rewrite !repairs_app, !configurations_built_app, R0, R2, Hbuilt.
      split.
      - unfold repairs. simpl. by destruct (w seg0 _).
      - unfold configurations_built at 1. simpl. lia. }
    destruct (guarded_resolution w config h2) as [[[]|e] h3];
      simpl in E2; subst h3; apply Hfinal.
Qed.

(** X16: what a failed validation becomes. Validation returns when
    [validate] returns, without trying a migration. An [Exception] raised
    by [validate] leads to the migration, once: validation returns when the
    migration answers true and raises [ConfigError] when it answers false,
    and the only other error is the one the migration itself raised. An
    error outside [Exception] raised by [validate] is not caught: it leaves
    validation unchanged and no migration is tried. *)
Theorem validation_errors_become_ConfigError config h :
  ((∀ e, w h (Validate config) ≠ Raises e) →
   _validate_config w config h =
   (inl (), h ++ [(Validate config, w h (Validate config))])) ∧
  (∀ e0, w h (Validate config) = Raises e0 → is_Exception e0 = false →
     _validate_config w config h =
     (inr e0, h ++ [(Validate config, Raises e0)])) ∧
  (∀ e h', _validate_config w config h = (inr e, h') →
     ∃ e0, w h (Validate config) = Raises e0 ∧
       (is_Exception e0 = false ∧ e = e0 ∨
        is_Exception e0 = true ∧
        (e = ConfigError ∨
         w (h ++ [(Validate config, Raises e0)])
           (Migrate_from_previous_config config) = Raises e))) ∧
  (∀ e0 b,
     w h (Validate config) = Raises e0 → is_Exception e0 = true →
     w (h ++ [(Validate config, Raises e0)])
       (Migrate_from_previous_config config) = Returns_bool b →
     (_validate_config w config h).1 = if b then inl () else inr ConfigError).
Proof.
  unfold _validate_config, try_except, bind, ask, log, ret, throw.
  split; [|split; [|split]].
  - intros Hret. destruct (w h (Validate config)) as [|b|e]; try done.
    by destruct (Hret e).
  - intros e0 Ev Hx. by rewrite Ev, Hx.
  - intros e h'. destruct (w h (Validate config)) as [|b|e0] eqn:Ev; try done.
    intros H. exists e0. split; [done|].
    destruct (is_Exception e0); [right; split; [done|]|left; split; [done|]].
    + destruct (w _ (Migrate_from_previous_config config)) as [|b|e1] eqn:Em;
        simpl in H.
      * injection H as <- _. by left.
      * destruct b; simpl in H; [done|]. injection H as <- _. by left.
      * injection H as <- _. by right.
    + by injection H as <- _.
  - intros e0 b Ev Hx Em. rewrite Ev, Hx, Em. by destruct b.
Qed.

End startup_facts.

(** *** Concrete start-ups *)

(** No profile can be resolved and there is no tentacles folder: the
    error is dropped. *)
Lemma profile_errors_gated_sample :
  ∃ h, _create_startup_config world_without_profiles [] = (inl (0, false), h).
Proof.
  eexists.
  exact (profile_errors_gated_by_tentacles world_without_profiles 0 _ _ _
           NoProfileError eq_refl eq_refl eq_refl (or_introl eq_refl)).
Defined.

(** The declared profile is missing and the default one is at hand: one
    repair, and the configuration is returned. *)
Lemma single_repair_attempt_sample :
  repairs (_create_startup_config world_with_default_profile []).2 = 1 ∧
  (_create_startup_config world_with_default_profile []).1 = inl (0, false).
Proof.
  destruct (single_repair_attempt world_with_default_profile 0 _
              eq_refl eq_refl) as [Hone _].
  split; [exact Hone|reflexivity].
Defined.

(** With no profile to resolve and no tentacles folder, loading returns
    normally although profile resolution failed: neither a success with a
    profile loaded nor a [NoProfileError]. *)
Lemma repair_neither_resolved_nor_fatal :
  ¬ repaired_or_fatal world_without_profiles.
Proof.
  intros [_ [H|[_ H]]]; vm_compute in H; discriminate.
Qed.



(** A configuration file that cannot be parsed is a [ConfigError]. *)
Lemma first_read_decides_sample :
  (_create_startup_config world_unreadable []).1 = inr ConfigError.
Proof.
  destruct (first_read_decides world_unreadable 0 _ eq_refl) as [Hfail _].
  rewrite (Hfail (OtherException "JSONDecodeError") eq_refl); [reflexivity|].
  discriminate.
Defined.

End CliFacts.

(** ** The community fields *)

Module CommunityFacts.
Import Community.

Lemma of_value_sound v member : of_value v = Some member → value member = v.
Proof.
  unfold of_value. intros H. apply find_some in H as [_ H].
  by apply String.eqb_eq in H.
Qed.

(** X17: no two community fields have the same value, so none is an
    alias of another: looking a field up by its value gives back the field
    itself, and a lookup that succeeds gives a field with the value looked
    up. *)
Theorem community_field_lookup_round_trip :
  (∀ member, of_value (value member) = Some member) ∧
  (∀ v member, of_value v = Some member ↔ v = value member) ∧
  NoDup (map value members).
Proof.
  assert (Hrt : ∀ member, of_value (value member) = Some member)
    by (intros []; vm_compute; reflexivity).
  split; [exact Hrt|]. split.
  - intros v member. split.
    + intros H. symmetry. by apply of_value_sound.
    + intros ->. apply Hrt.
  - apply (bool_decide_unpack _). vm_compute. exact I.
Qed.

End CommunityFacts.

(** ** The session and the forced configuration *)

Module BootFacts.
Import Boot.

Section facts.

Context {exc : Type}.
Variable E : @setting exc.
Variable w : @world exc.

Local Abbreviation M := (@Boot.M exc).

(** *** The errors that leave a computation *)











(** *** Which calls are made, and how often *)

Lemma issues_of_ret {A} P (x : A) : issues P (ret x : M A).
Proof. intros h. exists []. by rewrite app_nil_r. Qed.

Lemma issues_of_throw {A} P e : issues P (throw e : M A).
Proof. intros h. exists []. by rewrite app_nil_r. Qed.

Lemma issues_of_ask (P : request → Prop) r : P r → issues P (ask w r).
Proof.
  intros Hr h. exists [(r, w h r)]. split.
  - unfold ask. by destruct (w h r).
  - by apply Forall_singleton.
Qed.

Lemma issues_of_query (P : request → Prop) r : P r → issues P (query w r).
Proof.
  intros Hr h. exists [(r, w h r)]. split; [done|]. by apply Forall_singleton.
Qed.

Lemma issues_of_log (P : request → Prop) r : P r → issues P (log r : M unit).
Proof.
  intros Hr h. exists [(r, Returns)]. split; [done|]. by apply Forall_singleton.
Qed.

Lemma issues_of_bind {A B} P (m : M A) (f : A → M B) :
  issues P m → (∀ x, issues P (f x)) → issues P (bind m f).
Proof.
  intros Hm Hf h. destruct (Hm h) as (seg & Hs & Hc). unfold bind.
  destruct (m h) as [[x|e] h'] eqn:Em; simpl in Hs; subst h'.
  - destruct (Hf x (h ++ seg)) as (seg' & E' & Hc').
    exists (seg ++ seg'). rewrite E', app_assoc. split; [done|].
    by apply Forall_app.
  - by exists seg.
Qed.

Lemma issues_of_try_except {A} P (body : M A) handler :
  issues P body →
  (∀ e recover, handler e = Some recover → issues P recover) →
  issues P (try_except body handler).
Proof.
  intros Hb Hh h. destruct (Hb h) as (seg & Hs & Hc). unfold try_except.
  destruct (body h) as [[x|e] h'] eqn:Eb; simpl in Hs; subst h'.
  - by exists seg.
  - destruct (handler e) as [recover|] eqn:Eh; [|by exists seg].
    destruct (Hh e recover Eh (h ++ seg)) as (seg' & E' & Hc').
    exists (seg ++ seg'). rewrite E', app_assoc. split; [done|].
    by apply Forall_app.
Qed.

Lemma at_most_of_mono {A} k n n' (m : M A) :
  at_most k n m → n ≤ n' → at_most k n' m.
Proof.
  intros Hm Hle h. destruct (Hm h) as (seg & Hs & Hc).
  exists seg. split; [done|lia].
Qed.

Lemma at_most_of_ret {A} k (x : A) : at_most k 0 (ret x : M A).
Proof. intros h. exists []. by rewrite app_nil_r. Qed.

Lemma at_most_of_ask k r : at_most k (if k r then 1 else 0) (ask w r).
Proof.
  intros h. exists [(r, w h r)]. split.
  - unfold ask. by destruct (w h r).
  - simpl. destruct (k r); lia.
Qed.

Lemma at_most_of_log k r : at_most k (if k r then 1 else 0) (log r : M unit).
Proof.
  intros h. exists [(r, Returns)]. split; [done|].
  simpl. destruct (k r); lia.
Qed.

Lemma at_most_of_bind {A B} k n1 n2 (m : M A) (f : A → M B) :
  at_most k n1 m → (∀ x, at_most k n2 (f x)) → at_most k (n1 + n2) (bind m f).
Proof.
  intros Hm Hf h. destruct (Hm h) as (seg & Hs & Hc). unfold bind.
  destruct (m h) as [[x|e] h'] eqn:Em; simpl in Hs; subst h'.
  - destruct (Hf x (h ++ seg)) as (seg' & E' & Hc').
    exists (seg ++ seg'). rewrite E', app_assoc, count_where_app.
    split; [done|lia].
  - exists seg. split; [done|lia].
Qed.

Lemma at_most_of_try_except {A} k n1 n2 (body : M A) handler :
  at_most k n1 body →
  (∀ e recover, handler e = Some recover → at_most k n2 recover) →
  at_most k (n1 + n2) (try_except body handler).
Proof.
  intros Hb Hh h. destruct (Hb h) as (seg & Hs & Hc). unfold try_except.
  destruct (body h) as [[x|e] h'] eqn:Eb; simpl in Hs; subst h'.
  - exists seg. split; [done|lia].
  - destruct (handler e) as [recover|] eqn:Eh.
    + destruct (Hh e recover Eh (h ++ seg)) as (seg' & E' & Hc').
      exists (seg ++ seg'). rewrite E', app_assoc, count_where_app.
      split; [done|lia].
    + exists seg. split; [done|lia].
Qed.

Lemma at_most_of_if {A} k n (b : bool) (m1 m2 : M A) :
  at_most k n m1 → at_most k n m2 → at_most k n (if b then m1 else m2).
Proof. by destruct b. Qed.

Lemma issues_initialize_session :
  issues (allowed_by_constants E) (initialize_session E w).
Proof.
  unfold initialize_session.
  apply issues_of_try_except.
  - apply issues_of_bind; [by apply issues_of_ask|]. intros initialized.
    destruct (negb (truthy initialized)); [|apply issues_of_ret].
    apply issues_of_bind.
    + destruct (IS_CLOUD_ENV E && truthy_str (USER_ACCOUNT_EMAIL E) &&
                truthy_str (USER_PASSWORD_TOKEN E)) eqn:Hc;
        [|apply issues_of_ret].
      apply andb_true_iff in Hc as [Hc Ht].
      apply andb_true_iff in Hc as [Hc He].
      apply issues_of_try_except.
      * apply issues_of_bind; [by apply issues_of_ask|]. intros _. apply issues_of_ret.
      * intros e recover Hr. destruct (is_AuthenticationError E e); [|done].
        injection Hr as <-. by apply issues_of_log.
    + intros _. apply issues_of_bind; [by apply issues_of_ask|]. intros initialized'.
      destruct (negb (truthy initialized')); [|apply issues_of_ret].
      apply issues_of_bind; [by apply issues_of_ask|]. intros has_tentacles.
      apply issues_of_bind; [|intros _; apply issues_of_ret].
      apply issues_of_ask. simpl.
      destruct (negb (truthy has_tentacles) || IS_CLOUD_ENV E) eqn:Hf; [done|].
      by apply orb_false_iff in Hf as [_ Hf].
  - intros e recover Hr.
    destruct (is_FailedAuthentication E e);
      [|destruct (is_Exception E e); [|done]];
      injection Hr as <-; by apply issues_of_log.
Qed.

Lemma at_most_initialize_session k :
  k = is_login ∨ k = is_init_account →
  at_most k 1 (initialize_session E w).
Proof.
  intros Hk. unfold initialize_session.
  apply (at_most_of_try_except k 1 0).
  - apply (at_most_of_bind k 0 1).
    { eapply at_most_of_mono; [apply at_most_of_ask|]. by destruct Hk as [-> | ->]. }
    intros initialized. apply at_most_of_if;
      [|eapply at_most_of_mono; [apply at_most_of_ret|lia]].
    destruct Hk as [-> | ->].
    + (* logins *)
      apply (at_most_of_bind _ 1 0).
      * apply at_most_of_if; [|eapply at_most_of_mono; [apply at_most_of_ret|lia]].
        apply (at_most_of_try_except _ 1 0).
        -- apply (at_most_of_bind _ 1 0); [apply at_most_of_ask|].
           intros _. apply at_most_of_ret.
        -- intros e recover Hr. destruct (is_AuthenticationError E e); [|done].
           injection Hr as <-. apply at_most_of_log.
      * intros _. apply (at_most_of_bind _ 0 0); [apply at_most_of_ask|].
        intros initialized'. apply at_most_of_if; [|apply at_most_of_ret].
        apply (at_most_of_bind _ 0 0); [apply at_most_of_ask|]. intros has_tentacles.
        apply (at_most_of_bind _ 0 0); [apply at_most_of_ask|].
        intros _. apply at_most_of_ret.
    + (* saved sessions *)
      apply (at_most_of_bind _ 0 1).
      * apply at_most_of_if; [|apply at_most_of_ret].
        apply (at_most_of_try_except _ 0 0).
        -- apply (at_most_of_bind _ 0 0); [apply at_most_of_ask|].
           intros _. apply at_most_of_ret.
        -- intros e recover Hr. destruct (is_AuthenticationError E e); [|done].
           injection Hr as <-. apply at_most_of_log.
      * intros _. apply (at_most_of_bind _ 0 1); [apply at_most_of_ask|].
        intros initialized'.
        apply at_most_of_if; [|eapply at_most_of_mono; [apply at_most_of_ret|lia]].
        apply (at_most_of_bind _ 0 1); [apply at_most_of_ask|]. intros has_tentacles.
        apply (at_most_of_bind _ 1 0); [apply at_most_of_ask|].
        intros _. apply at_most_of_ret.
  - intros e recover Hr.
    destruct (is_FailedAuthentication E e);
      [|destruct (is_Exception E e); [|done]];
      injection Hr as <-;
      (eapply at_most_of_mono; [apply at_most_of_log|]);
      by destruct Hk as [-> | ->].
Qed.

(** X20: the authentication logs in at most once, and only in the cloud
    environment with both the account email and the password token set,
    which are the credentials it passes; it initializes the saved session
    at most once, and leaves the private data out only outside the
    cloud. *)
Theorem authentication_calls h :
  ∃ seg,
    (_get_authenticated_community_if_possible E w h).2 = h ++ seg ∧
    Forall (λ p, allowed_by_constants E p.1) seg ∧
    count_where (λ p, is_login p.1) seg ≤ 1 ∧
    count_where (λ p, is_init_account p.1) seg ≤ 1.
Proof.
  assert (Hi : issues (allowed_by_constants E)
                 (_get_authenticated_community_if_possible E w)).
  { unfold _get_authenticated_community_if_possible.
    apply issues_of_bind; [by apply issues_of_ask|]. intros _.
    apply issues_of_bind; [by apply issues_of_ask|]. intros _.
    apply issues_of_bind; [apply issues_initialize_session|]. intros _.
    apply issues_of_ret. }
  assert (Hn : ∀ k, k = is_login ∨ k = is_init_account →
                 at_most k 1 (_get_authenticated_community_if_possible E w)).
  { intros k Hk. unfold _get_authenticated_community_if_possible.
    apply (at_most_of_bind k 0 1).
    { eapply at_most_of_mono; [apply at_most_of_ask|]. by destruct Hk as [-> | ->]. }
    intros _. apply (at_most_of_bind k 0 1).
    { eapply at_most_of_mono; [apply at_most_of_ask|]. by destruct Hk as [-> | ->]. }
    intros _. apply (at_most_of_bind k 1 0);
      [by apply at_most_initialize_session|].
    intros _. apply at_most_of_ret. }
  destruct (Hi h) as (seg & Hs & Hall).
  destruct (Hn is_login (or_introl eq_refl) h) as (seg1 & Hs1 & Hl).
  destruct (Hn is_init_account (or_intror eq_refl) h) as (seg2 & Hs2 & Ha).
  rewrite Hs in Hs1, Hs2.
  apply app_inv_head in Hs1 as <-. apply app_inv_head in Hs2 as <-.
  by exists seg.
Qed.

(** *** The forced configuration *)



(** *** The tentacles *)





(** *** [start_MEV]: which calls it makes *)

Lemma issues_for_each {A} P (l : list A) (body : A → M unit) :
  (∀ x, issues P (body x)) → issues P (for_each l body).
Proof.
  intros Hb. induction l as [|x l IH]; simpl; [apply issues_of_ret|].
  apply issues_of_bind; [apply Hb|]. intros _. apply IH.
Qed.

Lemma issues_logger_call (P : request → Prop) start r :
  P r → issues P (logger_call E start r).
Proof.
  intros Hr h. unfold logger_call.
  destruct (logger_ready start h); [by apply issues_of_log|apply issues_of_throw].
Qed.

(** One step of the traversal of a computation, for a property of the
    calls that evaluates on each of them. *)
Ltac issuing_step :=
  first
    [ apply issues_of_ret
    | apply issues_of_throw
    | apply issues_of_ask; first [exact I | reflexivity]
    | apply issues_of_query; first [exact I | reflexivity]
    | apply issues_of_log; first [exact I | reflexivity]
    | apply issues_logger_call; first [exact I | reflexivity]
    | apply issues_of_bind; [|intros ?]
    | apply issues_for_each; intros ?
    | apply issues_of_try_except; [|intros ? ? ?]
    | match goal with
      | H : Some _ = Some _ |- _ => injection H as <-
      | H : None = Some _ |- _ => discriminate H
      | H : (if ?b then _ else _) = Some _ |- _ => destruct b
      | |- issues _ (if ?b then _ else _) => destruct b
      | |- issues _ (match ?x with _ => _ end) => destruct x
      end ].

Ltac issuing :=
  unfold load_configuration, prepare_configuration, create_and_run,
    _log_environment, _log_terms_if_unaccepted,
    _disable_interface_from_param, _get_authenticated_community_if_possible,
    initialize_session, _load_or_create_tentacles, _apply_forced_configs,
    _async_load_community_data, _apply_community_startup_info_to_config,
    _apply_env_variables_to_config, fatal_handler, exit_failure in *;
  repeat issuing_step.

Lemma issues_fatal_handler (P : request → Prop) start e recover :
  (∀ text, P (Log_error text)) → P Log_exception → P (Os_exit (-1)) →
  fatal_handler E start e = Some recover → issues P recover.
Proof.
  intros Herr Hexc Hexit Hr. unfold fatal_handler, exit_failure in Hr.
  repeat match goal with
         | H : (if ?b then _ else _) = Some _ |- _ => destruct b
         end; try discriminate Hr; injection Hr as <-.
  all: apply issues_of_bind;
    [|intros _; apply issues_of_bind; [by apply issues_of_log|intros _; apply issues_of_ret]].
  all: try (by apply issues_logger_call).
  destruct (mentions_tentacles E e); by apply issues_logger_call.
Qed.

Lemma issues_start_MEV_body args :
  issues (λ _, True) (start_MEV_body E w args).
Proof. unfold start_MEV_body. issuing. Qed.

(** X23: with [args.backtesting], [start_MEV] stays away from the community
    and from the live bot: no authentication, no start-up information, no
    profile download and no [MEV] instance, on any path and whatever the
    calls it makes answer. *)
Theorem backtesting_start_is_offline args :
  backtesting args = true → issues offline (start_MEV E w args).
Proof.
  intros Hb h. unfold start_MEV.
  apply (issues_of_try_except offline (start_MEV_body E w args)
           (fatal_handler E (length h))).
  - unfold start_MEV_body, prepare_configuration, create_and_run.
    rewrite Hb. cbn [negb]. issuing.
  - intros e recover Hr. by apply (issues_fatal_handler offline) in Hr.
Qed.

(** *** [start_MEV]: the fatal errors *)

Lemma logger_call_exit start r h :
  (logger_call E start r ;;; exit_failure) h =
  if logger_ready start h
  then (inl (Exited (-1)), h ++ [(r, Returns); (Os_exit (-1), Returns)])
  else (inr (AttributeError E), h).
Proof.
  unfold bind, logger_call, exit_failure, bind, log, ret, throw.
  destruct (logger_ready start h); [|done]. by rewrite <- app_assoc.
Qed.

Lemma bind_assoc {A B C} (m : M A) (f : A → M B) (g : B → M C) h :
  bind (bind m f) g h = bind m (λ x, bind (f x) g) h.
Proof. unfold bind. by destruct (m h) as [[x|e] h']. Qed.

Lemma logger_ready_after_init {A} (k : answer → M A) h r h' :
  (∀ a, issues (λ _, True) (k a)) →
  bind (ask w Init_logger) k h = (r, h') →
  logger_ready (length h) h' = returned (w h Init_logger).
Proof.
  intros Hk. unfold bind, ask, logger_ready.
  destruct (Hk (w h Init_logger) (h ++ [(Init_logger, w h Init_logger)]))
    as (seg & Hs & _).
  destruct (w h Init_logger) as [| | | |e].
  5: { intros [= <- <-]. by rewrite drop_app_length. }
  all: intros Hr; rewrite Hr in Hs; simpl in Hs; subst h';
    by rewrite <- app_assoc, drop_app_length.
Qed.

Lemma logger_ready_after_body args h r h' :
  start_MEV_body E w args h = (r, h') →
  logger_ready (length h) h' =
  negb (version args) && returned (w h Init_logger).
Proof.
  unfold start_MEV_body. destruct (version args); simpl.
  - unfold bind, ask, ret, logger_ready.
    destruct (w h Print_version); intros [= <- <-];
      by rewrite drop_app_length.
  - unfold load_configuration. rewrite bind_assoc.
    apply logger_ready_after_init. intros a. issuing.
Qed.

(** X24: an error raised by the statements of [start_MEV] that none of its
    five [except] clauses matches leaves [start_MEV] as it is. An error that
    one of them matches is logged, once, and the process is ended with
    status -1, provided the logger exists: [args.version] is not set and
    [init_logger] has returned. Otherwise [logger] is still [None], the
    clause itself fails with [AttributeError], and the process is not
    ended. *)
Theorem fatal_errors_exit args h e h' :
  start_MEV_body E w args h = (inr e, h') →
  (fatal E e = false → start_MEV E w args h = (inr e, h')) ∧
  (fatal E e = true → version args = false →
   returned (w h Init_logger) = true →
   ∃ entry,
     (entry = Log_exception ∨ ∃ text, entry = Log_error text) ∧
     start_MEV E w args h =
     (inl (Exited (-1)),
      h' ++ [(entry, Returns); (Os_exit (-1), Returns)])) ∧
  (fatal E e = true →
   version args = true ∨ returned (w h Init_logger) = false →
   start_MEV E w args h = (inr (AttributeError E), h')).
Proof.
  intros Hbody. pose proof (logger_ready_after_body _ _ _ _ Hbody) as Hl.
  unfold start_MEV, try_except. rewrite Hbody.
  unfold fatal, fatal_handler.
  destruct (is_ConfigError E e), (is_NoProfileError E e),
    (is_ModuleNotFoundError E e), (mentions_tentacles E e),
    (is_ConfigEvaluatorError E e), (is_ConfigTradingError E e); simpl.
  all: split; [done|].
  all: split; [intros Hf Hv Hi|intros Hf [Hv|Hi]]; try done.
  all: rewrite logger_call_exit, Hl, ?Hv, ?Hi, ?andb_false_r; simpl;
    try done.
  all: eexists; split; [|reflexivity]; first [by left | right; by eexists].
Qed.

(** *** [start_MEV]: what comes before what *)

Lemma preceded_by_quiet guard target (seg : @history exc) :
  Forall (λ p, target p.1 = false) seg → preceded_by guard target seg.
Proof.
  intros Hq l1 p l2 -> Ht. apply Forall_app in Hq as [_ Hq].
  apply Forall_cons in Hq as [Hp _]. congruence.
Qed.

Lemma preceded_by_app_quiet guard target (seg seg' : @history exc) :
  Forall (λ p, target p.1 = false) seg → preceded_by guard target seg' →
  preceded_by guard target (seg ++ seg').
Proof.
  intros Hq Hp l1 p l2 Heq Ht.
  apply app_eq_inv in Heq as [(k & -> & Hk)|(k & -> & Hk)].
  - destruct k as [|q k]; simpl in Hk.
    + symmetry in Hk. apply (Hp [] p l2) in Hk; [|done].
      by apply Exists_nil in Hk.
    + injection Hk as <- ->. apply Forall_app in Hq as [_ Hq].
      apply Forall_cons in Hq as [Hq _]. congruence.
  - apply Exists_app. right. by apply (Hp k p l2).
Qed.

Lemma preceded_by_app_guarded guard target (seg seg' : @history exc) :
  preceded_by guard target seg → Exists (λ q, guard q = true) seg →
  preceded_by guard target (seg ++ seg').
Proof.
  intros Hp Hg l1 p l2 Heq Ht.
  apply app_eq_inv in Heq as [(k & Hs & Hk)|(k & -> & Hk)].
  - destruct k as [|q k]; simpl in Hk.
    + rewrite app_nil_r in Hs. by subst l1.
    + injection Hk as <- ->. by apply (Hp l1 p k).
  - apply Exists_app. by left.
Qed.

Lemma preceded_by_app_then_quiet guard target (seg seg' : @history exc) :
  preceded_by guard target seg → Forall (λ p, target p.1 = false) seg' →
  preceded_by guard target (seg ++ seg').
Proof.
  intros Hp Hq l1 p l2 Heq Ht.
  apply app_eq_inv in Heq as [(k & Hs & Hk)|(k & -> & Hk)].
  - destruct k as [|q k]; simpl in Hk.
    + rewrite <- Hk in Hq. apply Forall_cons in Hq as [Hq _]. congruence.
    + injection Hk as <- ->. by apply (Hp l1 p k).
  - rewrite Hk in Hq. apply Forall_app in Hq as [_ Hq].
    apply Forall_cons in Hq as [Hq _]. congruence.
Qed.

Lemma gates_quiet {A} guard target (m : M A) :
  issues (λ r, target r = false) m → gates guard target m.
Proof.
  intros Hm h. destruct (Hm h) as (seg & Hs & Hq). exists seg.
  split; [done|]. by apply preceded_by_quiet.
Qed.

Lemma gates_bind_quiet {A B} guard target (m : M A) (f : A → M B) :
  issues (λ r, target r = false) m → (∀ x, gates guard target (f x)) →
  gates guard target (bind m f).
Proof.
  intros Hm Hf h. destruct (Hm h) as (seg & Hs & Hq). unfold bind.
  destruct (m h) as [[x|e] h1]; simpl in Hs; subst h1.
  - destruct (Hf x (h ++ seg)) as (seg' & -> & Hp). exists (seg ++ seg').
    split; [by rewrite app_assoc|]. by apply preceded_by_app_quiet.
  - exists seg. split; [done|]. by apply preceded_by_quiet.
Qed.

Lemma gates_bind_establishes {A B} guard target (m : M A) (f : A → M B) :
  establishes guard target m → (∀ x, issues (λ _, True) (f x)) →
  gates guard target (bind m f).
Proof.
  intros Hm Hf h. destruct (Hm h) as (seg & Hs & Hq & Hg). unfold bind.
  destruct (m h) as [[x|e] h1]; simpl in Hs, Hg; subst h1.
  - destruct (Hf x (h ++ seg)) as (seg' & -> & _). exists (seg ++ seg').
    split; [by rewrite app_assoc|].
    apply preceded_by_app_guarded; [by apply preceded_by_quiet|by eapply Hg].
  - exists seg. split; [done|]. by apply preceded_by_quiet.
Qed.

Lemma gates_try_except {A} guard target (body : M A) handler :
  gates guard target body →
  (∀ e recover, handler e = Some recover →
                issues (λ r, target r = false) recover) →
  gates guard target (try_except body handler).
Proof.
  intros Hb Hh h. destruct (Hb h) as (seg & Hs & Hp). unfold try_except.
  destruct (body h) as [[x|e] h1]; simpl in Hs; subst h1; [by exists seg|].
  destruct (handler e) as [recover|] eqn:Eh; [|by exists seg].
  destruct (Hh e recover Eh (h ++ seg)) as (seg' & -> & Hq).
  exists (seg ++ seg'). split; [by rewrite app_assoc|].
  by apply preceded_by_app_then_quiet.
Qed.

Lemma establishes_bind_l {A B} guard target (m : M A) (f : A → M B) :
  establishes guard target m →
  (∀ x, issues (λ r, target r = false) (f x)) →
  establishes guard target (bind m f).
Proof.
  intros Hm Hf h. destruct (Hm h) as (seg & Hs & Hq & Hg). unfold bind.
  destruct (m h) as [[x|e] h1]; simpl in Hs, Hg; subst h1.
  - destruct (Hf x (h ++ seg)) as (seg' & Hs' & Hq'). exists (seg ++ seg').
    rewrite Hs'. split; [by rewrite app_assoc|].
    split; [by apply Forall_app|]. intros _ _. apply Exists_app. left.
    by eapply Hg.
  - exists seg. split; [done|]. split; [done|]. by intros.
Qed.

Lemma establishes_bind_r {A B} guard target (m : M A) (f : A → M B) :
  issues (λ r, target r = false) m →
  (∀ x, establishes guard target (f x)) →
  establishes guard target (bind m f).
Proof.
  intros Hm Hf h. destruct (Hm h) as (seg & Hs & Hq). unfold bind.
  destruct (m h) as [[x|e] h1]; simpl in Hs; subst h1.
  - destruct (Hf x (h ++ seg)) as (seg' & Hs' & Hq' & Hg).
    exists (seg ++ seg'). rewrite Hs'. split; [by rewrite app_assoc|].
    split; [by apply Forall_app|]. intros y Hy. apply Exists_app. right.
    by eapply Hg.
  - exists seg. split; [done|]. split; [done|]. by intros.
Qed.

Lemma establishes_ask guard target r :
  target r = false →
  (∀ a, returned a = true → guard (r, a) = true) →
  establishes guard target (ask w r).
Proof.
  intros Ht Hg h. exists [(r, w h r)]. unfold ask.
  specialize (Hg (w h r)).
  destruct (w h r) as [| | | |e]; simpl.
  all: split; [done|]; split; [by apply Forall_singleton|].
  all: intros x Hx; try done.
  all: apply Exists_cons_hd; by apply Hg.
Qed.

Lemma establishes_prepare_configuration args is_first_startup :
  establishes health_check_passed is_bot_step
    (prepare_configuration E w args is_first_startup).
Proof.
  unfold prepare_configuration.
  do 5 (apply establishes_bind_r; [issuing|intros _]).
  apply establishes_bind_l; [|intros _; issuing].
  apply establishes_ask; [done|]. by intros [| | | |e].
Qed.

Lemma establishes_load_configuration :
  establishes configuration_loaded uses_configuration
    (load_configuration E w).
Proof.
  unfold load_configuration.
  do 3 (apply establishes_bind_r; [issuing|intros _]).
  apply establishes_bind_r; [issuing|intros startup_config].
  intros h. exists [(Is_loaded, w h Is_loaded)]. unfold bind, ask.
  destruct (w h Is_loaded) as [|[]| |[|n]|e]; simpl.
  all: split; [done|]; split; [by apply Forall_singleton|].
  all: intros x Hx; try done.
  all: by apply Exists_cons_hd.
Qed.

(** X25: [start_MEV] takes no step on the bot (it neither creates it, live
    or for backtesting, nor registers, names, updates, optimises or runs
    it, nor disables an interface) before [config_health_check] has
    returned in the same call; when the check raises, none of them
    happens. *)
Theorem bot_steps_after_health_check args :
  gates health_check_passed is_bot_step (start_MEV E w args).
Proof.
  intros h. unfold start_MEV.
  apply (gates_try_except health_check_passed is_bot_step
           (start_MEV_body E w args) (fatal_handler E (length h))).
  - unfold start_MEV_body.
    destruct (version args); [apply gates_quiet; issuing|].
    apply gates_bind_quiet; [issuing|intros is_first_startup].
    destruct (encrypter args); [apply gates_quiet; issuing|].
    apply gates_bind_establishes;
      [apply establishes_prepare_configuration|intros _; issuing].
  - intros e recover Hr.
    by apply (issues_fatal_handler (λ r, is_bot_step r = false)) in Hr.
Qed.

(** X26: apart from the version, the logger and its entries, the report on
    the environment, the start-up configuration and the end of the
    process, [start_MEV] calls nothing before [config.is_loaded()] has
    answered true in the same call: neither the key encrypter, nor the
    command-line overrides, the terms, the community, the tentacles, the
    health check or the bot. *)
Theorem configuration_used_only_when_loaded args :
  gates configuration_loaded uses_configuration (start_MEV E w args).
Proof.
  intros h. unfold start_MEV.
  apply (gates_try_except configuration_loaded uses_configuration
           (start_MEV_body E w args) (fatal_handler E (length h))).
  - unfold start_MEV_body.
    destruct (version args); [apply gates_quiet; issuing|].
    apply gates_bind_establishes;
      [apply establishes_load_configuration|intros is_first_startup].
    destruct (encrypter args); issuing.
  - intros e recover Hr.
    by apply (issues_fatal_handler (λ r, uses_configuration r = false))
      in Hr.
Qed.

End facts.

(** A backtesting start with a loaded configuration runs to [run_bot] and
    stays offline, where the same start without [--backtesting] begins
    with the community. *)
Lemma backtesting_start_is_offline_sample :
  Forall (λ p, offline p.1)
    (start_MEV sample_setting world_with_configuration backtesting_args []).2 ∧
  last (requests
          (start_MEV sample_setting world_with_configuration
             backtesting_args []).2) = Some Run_bot ∧
  Create_backtesting_factory true false true ∈
    requests
      (start_MEV sample_setting world_with_configuration
         backtesting_args []).2 ∧
  Use_environment_from_config ∈
    requests
      (start_MEV sample_setting world_with_configuration plain_args []).2.
Proof.
  split; [|split; [|split]].
  - destruct (backtesting_start_is_offline sample_setting
                world_with_configuration backtesting_args eq_refl [])
      as (seg & Hs & Hall).
    change ([] ++ seg) with seg in Hs. rewrite Hs. exact Hall.
  - vm_compute. reflexivity.
  - vm_compute. repeat constructor.
  - vm_compute. repeat constructor.
Defined.

(** Without a loaded configuration the start ends the process. *)
Lemma fatal_errors_exit_sample :
  (start_MEV sample_setting world_without_configuration plain_args []).1 =
  inl (Exited (-1)).
Proof.
  destruct (fatal_errors_exit sample_setting world_without_configuration
              plain_args [] "ConfigError" _ eq_refl) as (_ & H & _).
  destruct (H eq_refl eq_refl eq_refl) as (entry & _ & ->). reflexivity.
Defined.

End BootFacts.
